(** * pun-api: the charge-point capture script

    A shallow embedding of [script/rete_ricarica_veicoli_elettrici.js]:
    the network-idle detector ([waitForNetworkIdle]), the output store
    ([prepareOutputDirectory], [saveResponses]), the response observer and
    the session ([main]) with its top-level runner.

    Conventions.
    - A JavaScript string is the list of its UTF-16 code units.
    - [Date.now()] is an integer number of milliseconds, a [Z]; the
      subtraction the detector performs is exact on such values.
    - The host (event loop, browser, file system) is not part of the
      script: its answers are inputs of the model. *)

From Stdlib Require Import ZArith NArith List String Ascii Decimal DecimalN DecimalZ Lia.
From stdpp Require Import base option list sorting gmap fin_maps.

Local Open Scope Z_scope.

(** ** JavaScript strings *)

Module JsString.

Abbreviation jsstring := (list N).

(** A literal of the source, as code units. *)
Definition lit (s : string) : jsstring :=
  List.map N_of_ascii (list_ascii_of_string s).

Fixpoint starts_with (p s : jsstring) : bool :=
  match p, s with
  | [], _ => true
  | _ :: _, [] => false
  | a :: p', b :: s' => N.eqb a b && starts_with p' s'
  end.

(** [s.includes(sub)] *)
Fixpoint includes (s sub : jsstring) : bool :=
  starts_with sub s ||
  match s with
  | [] => false
  | _ :: s' => includes s' sub
  end.

(** WhiteSpace and LineTerminator of ECMAScript, the code units that
    [String.prototype.trim] strips. *)
Definition is_white_space (c : N) : bool :=
  match c with
  | 9 | 10 | 11 | 12 | 13 | 32 | 160 | 5760
  | 8192 | 8193 | 8194 | 8195 | 8196 | 8197 | 8198 | 8199 | 8200 | 8201 | 8202
  | 8232 | 8233 | 8239 | 8287 | 12288 | 65279 => true
  | _ => false
  end%N.

Fixpoint trimStart (s : jsstring) : jsstring :=
  match s with
  | c :: s' => if is_white_space c then trimStart s' else s
  | [] => []
  end.

Definition trim (s : jsstring) : jsstring :=
  rev (trimStart (rev (trimStart s))).

(** ToBoolean of a string: only the empty string is falsy. *)
Definition truthy (s : jsstring) : bool :=
  match s with [] => false | _ :: _ => true end.

(** Number::toString of an integer below 10^21 in magnitude: its decimal
    digits, without exponent. Array indices and [Date.now()] are such. *)
Fixpoint uint_units (d : Decimal.uint) : jsstring :=
  match d with
  | Nil => []
  | D0 d' => 48%N :: uint_units d'
  | D1 d' => 49%N :: uint_units d'
  | D2 d' => 50%N :: uint_units d'
  | D3 d' => 51%N :: uint_units d'
  | D4 d' => 52%N :: uint_units d'
  | D5 d' => 53%N :: uint_units d'
  | D6 d' => 54%N :: uint_units d'
  | D7 d' => 55%N :: uint_units d'
  | D8 d' => 56%N :: uint_units d'
  | D9 d' => 57%N :: uint_units d'
  end.

Definition nat_toString (i : nat) : jsstring :=
  uint_units (N.to_uint (N.of_nat i)).

Definition Z_toString (z : Z) : jsstring :=
  match Z.to_int z with
  | Decimal.Pos d => uint_units d
  | Decimal.Neg d => 45%N :: uint_units d
  end.

(** Reading back a run of decimal digits: the digits and what follows. *)
Fixpoint read_digits (s : jsstring) : Decimal.uint * jsstring :=
  match s with
  | [] => (Nil, [])
  | c :: s' =>
      let k (D : Decimal.uint -> Decimal.uint) :=
        (D (fst (read_digits s')), snd (read_digits s')) in
      match c with
      | 48 => k D0 | 49 => k D1 | 50 => k D2 | 51 => k D3 | 52 => k D4
      | 53 => k D5 | 54 => k D6 | 55 => k D7 | 56 => k D8 | 57 => k D9
      | _ => (Nil, s)
      end%N
  end.

Fixpoint strip_prefix (p s : jsstring) : option jsstring :=
  match p, s with
  | [], _ => Some s
  | _ :: _, [] => None
  | a :: p', b :: s' => if N.eqb a b then strip_prefix p' s' else None
  end.

End JsString.

(** ** The network-idle detector (source lines 128-154) *)

Module IdleDetector.

(** A timer of the host's timer table: [setTimeout(checkIdle, delay)] called
    when the clock read [set_at]; [delay] is the delay asked for. *)
Record timer := Timer { handle : nat; set_at : Z; delay : Z }.

Definition due (t : timer) : Z := set_at t + delay t.

(** The closure state of one [waitForNetworkIdle(page, timeout)] call,
    together with the part of the host it talks to: the timer table and
    the promise. [resolved] lists the clock readings at which [resolve()]
    was called, oldest first; the promise is settled by the first one. *)
Record detector := Detector {
  timeout : Z;
  lastRequestTime : Z;
  idleTimeout : option nat;
  pending : list timer;
  next_handle : nat;
  resolved : list Z
}.

(** [idleTimeout = setTimeout(checkIdle, d)] *)
Definition setTimeout (d now : Z) (s : detector) : detector :=
  {| timeout := timeout s;
     lastRequestTime := lastRequestTime s;
     idleTimeout := Some (next_handle s);
     pending := pending s ++ [Timer (next_handle s) now d];
     next_handle := S (next_handle s);
     resolved := resolved s |}.

Definition drop_timer (h : nat) (l : list timer) : list timer :=
  List.filter (fun t => negb (Nat.eqb (handle t) h)) l.

(** [clearTimeout(idleTimeout)]: nothing happens for [undefined] or for a
    handle that is no longer in the table. *)
Definition clearTimeout (s : detector) : detector :=
  match idleTimeout s with
  | None => s
  | Some h =>
      {| timeout := timeout s;
         lastRequestTime := lastRequestTime s;
         idleTimeout := idleTimeout s;
         pending := drop_timer h (pending s);
         next_handle := next_handle s;
         resolved := resolved s |}
  end.

Definition resolve (now : Z) (s : detector) : detector :=
  {| timeout := timeout s;
     lastRequestTime := lastRequestTime s;
     idleTimeout := idleTimeout s;
     pending := pending s;
     next_handle := next_handle s;
     resolved := resolved s ++ [now] |}.

Definition set_lastRequestTime (now : Z) (s : detector) : detector :=
  {| timeout := timeout s;
     lastRequestTime := now;
     idleTimeout := idleTimeout s;
     pending := pending s;
     next_handle := next_handle s;
     resolved := resolved s |}.

(** Lines 133-137. *)
Definition onRequest (now : Z) (s : detector) : detector :=
  setTimeout (timeout s) now (clearTimeout (set_lastRequestTime now s)).

(** Lines 139-147. *)
Definition checkIdle (now : Z) (s : detector) : detector :=
  if timeout s <=? now - lastRequestTime s
  then resolve now s
  else setTimeout (timeout s) now (clearTimeout s).

(** Lines 129-153: the executor of the promise, run when the clock reads
    [now]. *)
Definition start (T now : Z) : detector :=
  setTimeout T now
    {| timeout := T; lastRequestTime := now; idleTimeout := None;
       pending := []; next_handle := 0%nat; resolved := [] |}.

(** What the host can do to a started detector: deliver a [request] event
    of the page, or run the callback of a timer of its table, which leaves
    the table at that moment. [now] is what [Date.now()] returns inside the
    callback. *)
Inductive event := Request (now : Z) | Fire (h : nat) (now : Z).

Definition is_pending (h : nat) (s : detector) : bool :=
  existsb (fun t => Nat.eqb (handle t) h) (pending s).

Definition take_timer (h : nat) (s : detector) : detector :=
  {| timeout := timeout s;
     lastRequestTime := lastRequestTime s;
     idleTimeout := idleTimeout s;
     pending := drop_timer h (pending s);
     next_handle := next_handle s;
     resolved := resolved s |}.

Definition step (e : event) (s : detector) : option detector :=
  match e with
  | Request now => Some (onRequest now s)
  | Fire h now =>
      if is_pending h s then Some (checkIdle now (take_timer h s)) else None
  end.

Fixpoint run (evs : list event) (s : detector) : option detector :=
  match evs with
  | [] => Some s
  | e :: evs' =>
      match step e s with
      | Some s' => run evs' s'
      | None => None
      end
  end.

(** A stretch of a run in which no request comes: the host runs the check
    of handle [h] when the clock reads the first of [times], then the check
    of the next handle at the next reading, and so on. *)
Fixpoint checks (h : nat) (times : list Z) : list event :=
  match times with
  | [] => []
  | now :: times' => Fire h now :: checks (S h) times'
  end.

Definition ev_time (e : event) : Z :=
  match e with Request now => now | Fire _ now => now end.

(** The clock never runs backwards along the events. *)
Fixpoint monotone (clock : Z) (evs : list event) : Prop :=
  match evs with
  | [] => True
  | e :: evs' => clock <= ev_time e /\ monotone (ev_time e) evs'
  end.

(** Every call of [onRequest] comes less than [T] after the previous call,
    the call before the first one being [start]. *)
Fixpoint gaps_lt (T last : Z) (evs : list event) : Prop :=
  match evs with
  | [] => True
  | Request now :: evs' => now - last < T /\ gaps_lt T now evs'
  | Fire _ _ :: evs' => gaps_lt T last evs'
  end.

(** The same for the calls of [onRequest] among themselves only. *)
Fixpoint request_times (evs : list event) : list Z :=
  match evs with
  | [] => []
  | Request now :: evs' => now :: request_times evs'
  | Fire _ _ :: evs' => request_times evs'
  end.

Fixpoint inter_call_gaps_lt (T : Z) (ts : list Z) : Prop :=
  match ts with
  | t1 :: ((t2 :: _) as ts') => t2 - t1 < T /\ inter_call_gaps_lt T ts'
  | _ => True
  end.

Fixpoint last_call (last : Z) (evs : list event) : Z :=
  match evs with
  | [] => last
  | Request now :: evs' => last_call now evs'
  | Fire _ _ :: evs' => last_call last evs'
  end.

(** At most one timer in the table, and the variable holds its handle. *)
Definition single_pending (s : detector) : Prop :=
  match pending s with
  | [] => True
  | [t] => idleTimeout s = Some (handle t)
  | _ => False
  end.

(** The state of a debounced run: the detector is waiting with a check in
    the table, or it has called [resolve] once, no earlier than the
    timeout after the last call, and the table is empty. *)
Definition debounced (T clock : Z) (s : detector) : Prop :=
  timeout s = T /\ single_pending s /\ lastRequestTime s <= clock /\
  ((resolved s = [] /\ pending s <> []) \/
   (exists tau, resolved s = [tau] /\ pending s = [] /\
                lastRequestTime s + T <= tau /\ tau <= clock)).

End IdleDetector.

(** ** The script's effects: a state and exception monad *)

Module Script.
Import JsString.

Inductive errno := ENOENT | ENOTDIR | EISDIR.

(** What a [throw] carries: an [Error] of the browser library with its
    message, or a system error of [fs] with its code. *)
Inductive error := Error (message : jsstring) | SystemError (code : errno).

Definition message_of (e : error) : jsstring :=
  match e with
  | Error m => m
  | SystemError ENOENT => lit "ENOENT"
  | SystemError ENOTDIR => lit "ENOTDIR"
  | SystemError EISDIR => lit "EISDIR"
  end.

(** An entry of the output directory. [unlinkSync] and [writeFileSync]
    tell the two kinds apart; nothing else of an entry matters to the
    script. The file system refuses a call for what is at the path (a
    directory where a file is expected, no directory at all); refusals
    that do not show in the tree (permissions, a full disk) are outside
    this model. *)
Inductive node := File (data : jsstring) | Directory.

(** What is at [CONFIG.outputDirectory]. *)
Inductive path_state :=
| Missing
| NotADirectory
| Dir (entries : gmap (list N) node).

Inductive arg := Str (s : jsstring) | Err (e : error).

(** The calls that leave the script, in the order they are made. *)
Inductive effect :=
| ConsoleLog (args : list arg)
| ConsoleError (args : list arg)
| PuppeteerLaunch
| NewPage
| CreateCDPSession
| PageOnResponse
| PageGoto (url : jsstring)
| PageOnRequest
| BrowserClose
| ProcessExit (code : Z).

(** The store: the file system under the output directory, the calls made
    so far, and the two variables of [main] that outlive a statement:
    [browser] (is it assigned) and the array [responses]. *)
Record world := World {
  outdir : path_state;
  trace : list effect;
  browser : bool;
  responses : list jsstring
}.

(** How a call ends: it returns, it throws, or the promise it awaits is
    never settled. *)
Inductive result (A : Type) :=
| Returned (a : A)
| Threw (e : error)
| Pending.
Arguments Returned {A} a.
Arguments Threw {A} e.
Arguments Pending {A}.

Definition M (A : Type) : Type := world -> result A * world.

Definition ret {A} (a : A) : M A := fun w => (Returned a, w).

Definition throw {A} (e : error) : M A := fun w => (Threw e, w).

Definition bind {A B} (m : M A) (k : A -> M B) : M B := fun w =>
  match m w with
  | (Returned a, w') => k a w'
  | (Threw e, w') => (Threw e, w')
  | (Pending, w') => (Pending, w')
  end.

Declare Scope js_scope.
Delimit Scope js_scope with js.
Notation "m >>= k" := (bind m k) (at level 62, right associativity) : js_scope.
Notation "m >> k" := (bind m (fun _ => k)) (at level 62, right associativity) : js_scope.
Local Open Scope js_scope.

(** [try { body } catch (error) { handler } finally { fin }] *)
Definition try_catch_finally (body : M unit) (handler : error -> M unit)
    (fin : M unit) : M unit := fun w =>
  match body w with
  | (Pending, w1) => (Pending, w1)
  | (Returned _, w1) => fin w1
  | (Threw e, w1) =>
      match handler e w1 with
      | (Pending, w2) => (Pending, w2)
      | (Returned _, w2) => fin w2
      | (Threw e', w2) =>
          match fin w2 with
          | (Returned _, w3) => (Threw e', w3)
          | other => other
          end
      end
  end.

Fixpoint for_of {A} (l : list A) (body : A -> M unit) : M unit :=
  match l with
  | [] => ret tt
  | x :: l' => body x >> for_of l' body
  end.

Definition logged (l : list effect) (w : world) : world :=
  {| outdir := outdir w; trace := trace w ++ l;
     browser := browser w; responses := responses w |}.

Definition emit (e : effect) : M unit := fun w => (Returned tt, logged [e] w).

Definition console_log (args : list arg) : M unit := emit (ConsoleLog args).
Definition console_error (args : list arg) : M unit := emit (ConsoleError args).

Definition put_outdir (p : path_state) (w : world) : world :=
  {| outdir := p; trace := trace w;
     browser := browser w; responses := responses w |}.

Definition set_outdir (p : path_state) : M unit := fun w =>
  (Returned tt, put_outdir p w).

Definition assign_browser : M unit := fun w =>
  (Returned tt,
   {| outdir := outdir w; trace := trace w;
      browser := true; responses := responses w |}).

(** [responses.push(x)] *)
Definition push (x : jsstring) : M unit := fun w =>
  (Returned tt,
   {| outdir := outdir w; trace := trace w;
      browser := browser w; responses := responses w ++ [x] |}).

Definition get_outdir : M path_state := fun w => (Returned (outdir w), w).
Definition get_browser : M bool := fun w => (Returned (browser w), w).
Definition get_responses : M (list jsstring) := fun w => (Returned (responses w), w).

(** An awaited call of the browser library: the host says how it ends. *)
Definition host_call (e : effect) (outcome : option error) : M unit :=
  emit e >> match outcome with None => ret tt | Some err => throw err end.

(** Effects by kind: the console only; anything but closing the browser
    or ending the process. *)
Definition console_effect (e : effect) : Prop :=
  match e with ConsoleLog _ | ConsoleError _ => True | _ => False end.

Definition benign (e : effect) : Prop :=
  match e with BrowserClose | ProcessExit _ => False | _ => True end.

(** [w'] comes after [w]: the variable [browser] is as it was and the
    calls made in between all satisfy [ok]. *)
Definition extends (ok : effect -> Prop) (w w' : world) : Prop :=
  browser w' = browser w /\
  exists l, trace w' = trace w ++ l /\ Forall ok l.

Definition framed {A} (ok : effect -> Prop) (m : M A) : Prop :=
  forall w, extends ok w (snd (m w)).

Definition is_close (e : effect) : bool :=
  match e with BrowserClose => true | _ => false end.

(** How many times [browser.close()] was called. *)
Definition closes (l : list effect) : nat := length (List.filter is_close l).

(** *** The file-system calls, on the output directory *)

Definition existsSync : M bool :=
  get_outdir >>= fun p =>
  ret (match p with Missing => false | _ => true end).

(** [fs.readdirSync(dir)]: the names of the entries, each once. The host
    lists them in an order of its own; here they come in the order of
    the map's listing, and nothing below depends on which order it is. *)
Definition readdirSync : M (list jsstring) :=
  get_outdir >>= fun p =>
  match p with
  | Missing => throw (SystemError ENOENT)
  | NotADirectory => throw (SystemError ENOTDIR)
  | Dir d => ret (map_to_list d).*1
  end.

(** [fs.unlinkSync(path.join(dir, name))]: removes a file, refuses a
    directory. *)
Definition unlinkSync (name : jsstring) : M unit :=
  get_outdir >>= fun p =>
  match p with
  | Missing => throw (SystemError ENOENT)
  | NotADirectory => throw (SystemError ENOTDIR)
  | Dir d =>
      match d !! name with
      | None => throw (SystemError ENOENT)
      | Some Directory => throw (SystemError EISDIR)
      | Some (File _) => set_outdir (Dir (delete name d))
      end
  end.

(** [fs.mkdirSync(dir, { recursive: true })] *)
Definition mkdirSync : M unit :=
  get_outdir >>= fun p =>
  match p with
  | Missing => set_outdir (Dir ∅)
  | NotADirectory => throw (SystemError ENOTDIR)
  | Dir _ => ret tt
  end.

(** [fs.writeFileSync(path.join(dir, name), data)]: creates the file or
    replaces its content; refuses a directory. *)
Definition writeFileSync (name data : jsstring) : M unit :=
  get_outdir >>= fun p =>
  match p with
  | Missing => throw (SystemError ENOENT)
  | NotADirectory => throw (SystemError ENOTDIR)
  | Dir d =>
      match d !! name with
      | Some Directory => throw (SystemError EISDIR)
      | _ => set_outdir (Dir (<[name := File data]> d))
      end
  end.

End Script.

(** ** The output store and the session (source lines 11-121, 157-160) *)

Module Session.
Import JsString Script.
Local Open Scope js_scope.

Record config := Config {
  targetUrl : jsstring;
  apiEndpoint : jsstring;
  networkIdleTimeout : Z;
  outputDirectory : jsstring
}.

(** Lines 11-16; [path.join(__dirname, 'output')]. *)
Definition CONFIG (__dirname : jsstring) : config :=
  {| targetUrl := lit "https://www.piattaformaunicanazionale.it/idr";
     apiEndpoint :=
       lit "https://api.pun.piattaformaunicanazionale.it/v1/chargepoints/public/map/search";
     networkIdleTimeout := 30000;
     outputDirectory := __dirname ++ lit "/output" |}.

(** Lines 93-95: the body of the loop. *)
Definition unlink_and_log (file : jsstring) : M unit :=
  unlinkSync file >>
  console_log [Str (lit "Deleted " ++ file)].

(** Lines 86-100. *)
Definition prepareOutputDirectory (cfg : config) : M unit :=
  console_log [Str (lit "Output directory path:"); Str (outputDirectory cfg)] >>
  existsSync >>= fun there =>
  if there : bool then
    readdirSync >>= fun files =>
    for_of files unlink_and_log
  else
    console_log [Str (lit "Output directory does not exist. It will be created.")].

(** Line 116: [`response_${i}_${timestamp}.json`] *)
Definition fileName (i : nat) (timestamp : Z) : jsstring :=
  lit "response_" ++ nat_toString i ++ lit "_" ++ Z_toString timestamp
    ++ lit ".json".

(** Lines 115-120: the loop, at index [i] with [rest] still to write. *)
Fixpoint save_from (timestamp : Z) (i : nat) (rest : list jsstring) : M unit :=
  match rest with
  | [] => ret tt
  | r :: rest' =>
      writeFileSync (fileName i timestamp) r >>
      console_log [Str (lit "Saved " ++ fileName i timestamp)] >>
      save_from timestamp (S i) rest'
  end.

(** Lines 106-121; [now] is what [Date.now()] returns at line 113. *)
Definition saveResponses (now : Z) (responses : list jsstring) : M unit :=
  console_log [Str (lit "Saving JSON responses...")] >>
  existsSync >>= fun there =>
  (if there : bool then ret tt else mkdirSync) >>
  save_from now 0 responses.

(** A response of the page: the URL of its request, and how reading its
    body with [response.text()] ends. *)
Record response := Response {
  request_url : jsstring;
  text : jsstring + error
}.

(** Lines 42-57: the observer, as one step taken when the read of the
    body has ended (the source prints the first line when the response
    arrives and does the rest after [await response.text()]). A list of
    responses served to it is therefore in the order in which the reads
    end, which need not be the order of arrival. *)
Definition on_response (cfg : config) (r : response) : M unit :=
  if includes (request_url r) (apiEndpoint cfg) then
    console_log [Str (lit "Map search response detected")] >>
    match text r with
    | inl responseText =>
        if truthy (trim responseText) then push responseText else ret tt
    | inr error =>
        console_error [Str (lit "Error processing response:");
                       Str (message_of error)]
    end
  else ret tt.

(** What the page does while [main] awaits the idle signal. *)
Inductive page_event :=
| PageRequest (now : Z)
| PageResponse (r : response)
| TimerFires (h : nat) (now : Z).

(** [await] of the detector's promise: the events are served one by one
    until [resolve()] has been called, which line 141 announces on the
    console; when they run out before that, the promise stays pending. A
    timer that is not in the table cannot fire: such an event is
    skipped. *)
Fixpoint await_idle (cfg : config) (evs : list page_event)
    (d : IdleDetector.detector) : M unit :=
  match IdleDetector.resolved d with
  | _ :: _ => console_log [Str (lit "Network traffic is idle. Continuing...")]
  | [] =>
      match evs with
      | [] => fun w => (Pending, w)
      | PageRequest now :: evs' =>
          await_idle cfg evs' (IdleDetector.onRequest now d)
      | TimerFires h now :: evs' =>
          match IdleDetector.step (IdleDetector.Fire h now) d with
          | Some d' => await_idle cfg evs' d'
          | None => await_idle cfg evs' d
          end
      | PageResponse r :: evs' =>
          on_response cfg r >> await_idle cfg evs' d
      end
  end.

(** Lines 128-154, as [main] sees it. *)
Definition waitForNetworkIdle (cfg : config) (timeout start_now : Z)
    (evs : list page_event) : M unit :=
  emit PageOnRequest >>
  await_idle cfg evs (IdleDetector.start timeout start_now).

(** The answers of the host to one run of the script. *)
Record host := Host {
  dirname : jsstring;
  launch : option error;
  newPage : option error;
  createCDPSession : option error;
  goto_traffic : list response;
  goto : option error;
  idle_start : Z;
  idle_events : list page_event;
  save_now : Z;
  close : option error
}.

(** Lines 27-28: the browser is launched and assigned. *)
Definition main_launch (h : host) : M unit :=
  host_call PuppeteerLaunch (launch h) >>
  assign_browser.

(** Lines 28-35: the page and its DevTools session. *)
Definition main_page (h : host) : M unit :=
  console_log [Str (lit "Browser launched successfully.")] >>
  host_call NewPage (newPage h) >>
  console_log [Str (lit "Page created successfully.")] >>
  host_call CreateCDPSession (createCDPSession h) >>
  console_log [Str (lit "DevTools protocol activated.")].

(** Lines 41-71: the observer, the navigation, the wait and the save.
    The responses of [goto_traffic] are those whose body read ends while
    [page.goto] is awaited. *)
Definition main_capture (h : host) : M unit :=
  let cfg := CONFIG (dirname h) in
  emit PageOnResponse >>
  console_log [Str (lit "Navigating to the page...")] >>
  emit (PageGoto (targetUrl cfg)) >>
  for_of (goto_traffic h) (on_response cfg) >>
  (match goto h with None => ret tt | Some err => throw err end) >>
  console_log [Str (lit "Page loaded.")] >>
  console_log [Str (lit "Waiting for network traffic to settle...")] >>
  waitForNetworkIdle cfg (networkIdleTimeout cfg) (idle_start h) (idle_events h) >>
  get_responses >>= fun responses =>
  saveResponses (save_now h) responses >>
  console_log [Str (lit "Process completed successfully.")].

(** Lines 27-71: the [try] block. *)
Definition main_try (h : host) : M unit :=
  main_launch h >>
  main_page h >>
  prepareOutputDirectory (CONFIG (dirname h)) >>
  main_capture h.

(** Lines 72-73. *)
Definition main_catch (error : error) : M unit :=
  console_error [Str (lit "An error occurred:"); Err error].

(** Lines 74-80. *)
Definition main_finally (h : host) : M unit :=
  get_browser >>= fun browser =>
  if browser : bool then
    console_log [Str (lit "Closing browser...")] >>
    host_call BrowserClose (close h) >>
    console_log [Str (lit "Browser closed.")]
  else ret tt.

(** Lines 21-81. *)
Definition main (h : host) : M unit :=
  console_log [Str (lit "Starting script...")] >>
  try_catch_finally (main_try h) main_catch (main_finally h).

(** The process as it starts: nothing called yet, [browser] undefined. *)
Definition boot (p : path_state) : world :=
  {| outdir := p; trace := []; browser := false; responses := [] |}.

(** The same when the [try] block is entered. *)
Definition entered (p : path_state) : world :=
  logged [ConsoleLog [Str (lit "Starting script...")]] (boot p).

(** The report of the [catch] block, lines 72-73. *)
Definition caught (e : error) : effect :=
  ConsoleError [Str (lit "An error occurred:"); Err e].

(** What the [finally] block does with a browser, up to the call of
    [close] and after it has returned. *)
Definition closing : list effect :=
  [ConsoleLog [Str (lit "Closing browser...")]; BrowserClose].

Definition closed : list effect :=
  [ConsoleLog [Str (lit "Browser closed.")]].

(** The top-level handler, lines 157-160. *)
Definition unhandled (e : error) : list effect :=
  [ConsoleError [Str (lit "Unhandled error:"); Err e]; ProcessExit 1].

(** The calls made once the [try] block has ended with [r]: the report
    of the [catch] block, then the [finally] block and, when [close]
    throws, the top-level handler. *)
Definition report (r : result unit) : list effect :=
  match r with Threw e => [caught e] | _ => [] end.

Definition teardown (h : host) : list effect :=
  match launch h, close h with
  | Some _, _ => []
  | None, None => closing ++ closed
  | None, Some e => closing ++ unhandled e
  end.

Definition status_of (h : host) : Z :=
  match launch h, close h with
  | None, Some _ => 1
  | _, _ => 0
  end.

(** Lines 28-35 when the page and the DevTools session are obtained. *)
Definition page_ready : list effect :=
  [ConsoleLog [Str (lit "Browser launched successfully.")];
   NewPage;
   ConsoleLog [Str (lit "Page created successfully.")];
   CreateCDPSession;
   ConsoleLog [Str (lit "DevTools protocol activated.")]].

(** A run on an output directory that holds a subdirectory next to an
    older capture; the host would let everything succeed. *)
Definition old_output : gmap (list N) node :=
  <[lit "response_0_1.json" := File (lit "{}")]>
    (<[lit "archive" := Directory]> ∅).

Definition all_succeeds : host :=
  {| dirname := lit "/app";
     launch := None; newPage := None; createCDPSession := None;
     goto_traffic := [];
     goto := None;
     idle_start := 0;
     idle_events := [TimerFires 0 30000];
     save_now := 30000;
     close := None |}.

(** A run that captures two responses out of four: one during the
    navigation, one during the wait. *)
Definition capture_run : host :=
  {| dirname := lit "/app";
     launch := None; newPage := None; createCDPSession := None;
     goto_traffic :=
       [Response (lit "https://www.piattaformaunicanazionale.it/main.js")
                 (inl (lit "x"));
        Response (apiEndpoint (CONFIG []) ++ lit "?zoom=6") (inl (lit "[1,2]"));
        Response (apiEndpoint (CONFIG [])) (inr (Error (lit "body gone")))];
     goto := None;
     idle_start := 1000;
     idle_events :=
       [PageRequest 2000;
        PageResponse (Response (apiEndpoint (CONFIG [])) (inl (lit "[]")));
        TimerFires 1 32000];
     save_now := 32001;
     close := None |}.

(** A run in which everything succeeds but the navigation; the output
    directory does not exist yet. *)
Definition navigation_fails : host :=
  {| dirname := lit "/app";
     launch := None; newPage := None; createCDPSession := None;
     goto_traffic := [];
     goto := Some (Error (lit "net::ERR_NAME_NOT_RESOLVED"));
     idle_start := 0; idle_events := []; save_now := 0;
     close := None |}.

(** Does the body of [s] contain a code unit that [trim] keeps? *)
Definition has_content (s : jsstring) : Prop :=
  exists c, c ∈ s /\ is_white_space c = false.

(** Lines 157-160 and the end of the process. [None]: the process does
    not end, [main] is waiting for a promise that is never settled. *)
Definition script (h : host) (p : path_state) : option Z * world :=
  match main h (boot p) with
  | (Returned _, w) => (Some 0, w)
  | (Threw e, w) =>
      match (console_error [Str (lit "Unhandled error:"); Err e] >>
             emit (ProcessExit 1)) w with
      | (_, w') => (Some 1, w')
      end
  | (Pending, w) => (None, w)
  end.

(** The sequential index embedded in a file name, and the file names of a
    directory listing put in the order of that index. *)
Definition embedded_index (name : jsstring) : option nat :=
  match strip_prefix (lit "response_") name with
  | Some s =>
      match read_digits s with
      | (Nil, _) => None
      | (d, 95%N :: _) => Some (N.to_nat (N.of_uint d))
      | _ => None
      end
  | None => None
  end.

(** The timestamp embedded in a file name: what stands between the
    underscore after the index and the extension, read as a decimal
    number with an optional minus sign. *)
Definition embedded_timestamp (name : jsstring) : option Z :=
  match strip_prefix (lit "response_") name with
  | Some s =>
      match snd (read_digits s) with
      | 95%N :: 45%N :: t =>
          match strip_prefix (lit ".json") (snd (read_digits t)) with
          | Some [] => Some (Z.of_int (Decimal.Neg (fst (read_digits t))))
          | _ => None
          end
      | 95%N :: t =>
          match strip_prefix (lit ".json") (snd (read_digits t)) with
          | Some [] => Some (Z.of_int (Decimal.Pos (fst (read_digits t))))
          | _ => None
          end
      | _ => None
      end
  | None => None
  end.

(** Lines 115-120 and 106-121 with the call of [fs.writeFileSync] left
    open: the same loop and the same function over any [write], to say
    what they do whatever makes a write fail. *)
Fixpoint save_from_with (write : jsstring -> jsstring -> M unit)
    (timestamp : Z) (i : nat) (rest : list jsstring) : M unit :=
  match rest with
  | [] => ret tt
  | r :: rest' =>
      write (fileName i timestamp) r >>
      console_log [Str (lit "Saved " ++ fileName i timestamp)] >>
      save_from_with write timestamp (S i) rest'
  end.

Definition saveResponses_with (write : jsstring -> jsstring -> M unit)
    (now : Z) (responses : list jsstring) : M unit :=
  console_log [Str (lit "Saving JSON responses...")] >>
  existsSync >>= fun there =>
  (if there : bool then ret tt else mkdirSync) >>
  save_from_with write now 0 responses.

(** Ordering file names by their embedded index; a name without one
    counts as index 0. *)
Definition index_key (name : jsstring) : nat :=
  match embedded_index name with Some i => i | None => 0%nat end.

Definition by_index (a b : jsstring) : Prop := (index_key a <= index_key b)%nat.

#[global] Instance by_index_dec (a b : jsstring) : Decision (by_index a b) :=
  le_dec (index_key a) (index_key b).

Definition sort_by_index (names : list jsstring) : list jsstring :=
  merge_sort by_index names.

(** The names [saveResponses] gives to [K] payloads. *)
Definition saved_names (timestamp : Z) (K : nat) : list jsstring :=
  List.map (fun i => fileName i timestamp) (seq 0 K).

(** Every entry is a file. *)
Definition all_files (d : gmap (list N) node) : Prop :=
  forall k n, d !! k = Some n -> exists data, n = File data.

(** The entries of the output directory; none when it is missing. *)
Definition entries_of (p : path_state) : gmap (list N) node :=
  match p with Dir d => d | _ => ∅ end.

(** A [write] on a device with room for [room] entries in the output
    directory: [fs.writeFileSync] while there is room, and a throw with
    the message of ENOSPC after that; one of the failures of the host that
    [writeFileSync] above does not have. *)
Definition write_with_room (room : nat) (name data : jsstring) : M unit :=
  get_outdir >>= fun p =>
  if (room <=? size (entries_of p))%nat
  then throw (Error (lit "ENOSPC: no space left on device, write"))
  else writeFileSync name data.

(** What the observer keeps of one response: the body, when the URL
    matches, the read succeeds and the trimmed text is not empty. *)
Definition captured_body (cfg : config) (r : response) : option jsstring :=
  match text r with
  | inl b =>
      if includes (request_url r) (apiEndpoint cfg) && truthy (trim b)
      then Some b else None
  | inr _ => None
  end.

Definition is_goto (e : effect) : bool :=
  match e with PageGoto _ => true | _ => false end.

(** Two more runs: the browser cannot be launched; the navigation fails
    and then the browser cannot be closed either. *)
Definition launch_fails : host :=
  {| dirname := lit "/app";
     launch := Some (Error (lit "Failed to launch the browser process"));
     newPage := None; createCDPSession := None;
     goto_traffic := []; goto := None;
     idle_start := 0; idle_events := []; save_now := 0;
     close := None |}.


End Session.

(** * Properties of the idle detector *)

Section IdleDetectorFacts.
Import IdleDetector.

Example request_rearms :
  run [Request 100] (start 30000 0)
  = Some {| timeout := 30000; lastRequestTime := 100; idleTimeout := Some 1%nat;
            pending := [Timer 1 100 30000]; next_handle := 2; resolved := [] |}.
Proof. reflexivity. Qed.

Example check_resolves :
  run [Request 100; Fire 1 30100] (start 30000 0)
  = Some {| timeout := 30000; lastRequestTime := 100; idleTimeout := Some 1%nat;
            pending := []; next_handle := 2; resolved := [30100] |}.
Proof. reflexivity. Qed.

Example cleared_timer_cannot_fire :
  run [Request 100; Fire 0 30000] (start 30000 0) = None.
Proof. reflexivity. Qed.

Lemma drop_timer_only (t : timer) : drop_timer (handle t) [t] = [].
Proof. unfold drop_timer; simpl. rewrite Nat.eqb_refl. reflexivity. Qed.

Lemma single_pending_cases (s : detector) :
  single_pending s ->
  pending s = [] \/ exists t, pending s = [t] /\ idleTimeout s = Some (handle t).
Proof.
  unfold single_pending. destruct (pending s) as [|t [|u l]]; intros H.
  - now left.
  - right. now exists t.
  - destruct H.
Qed.

Lemma clearTimeout_pending (s : detector) :
  single_pending s -> pending (clearTimeout s) = [].
Proof.
  intros H. destruct (single_pending_cases s H) as [E | (t & E & Eh)];
    unfold clearTimeout.
  - destruct (idleTimeout s); simpl; rewrite E; reflexivity.
  - rewrite Eh; simpl. rewrite E. apply drop_timer_only.
Qed.

Lemma onRequest_pending (now : Z) (s : detector) :
  single_pending s ->
  pending (onRequest now s) = [Timer (next_handle s) now (timeout s)].
Proof.
  intros H. unfold onRequest.
  assert (Hc : pending (clearTimeout (set_lastRequestTime now s)) = [])
    by (apply clearTimeout_pending; exact H).
  unfold setTimeout; simpl. rewrite Hc.
  unfold clearTimeout; simpl. destruct (idleTimeout s); reflexivity.
Qed.

Lemma onRequest_fields (now : Z) (s : detector) :
  timeout (onRequest now s) = timeout s /\
  lastRequestTime (onRequest now s) = now /\
  resolved (onRequest now s) = resolved s /\
  idleTimeout (onRequest now s) = Some (next_handle s).
Proof.
  unfold onRequest, setTimeout, clearTimeout; simpl.
  destruct (idleTimeout s); simpl; auto.
Qed.

(** When a timer of a one-timer table fires, the table is empty while its
    callback runs. *)
Lemma fire_takes_the_timer (h : nat) (s : detector) :
  single_pending s -> is_pending h s = true ->
  pending s = [Timer h (set_at (hd (Timer 0 0 0) (pending s)))
                       (delay (hd (Timer 0 0 0) (pending s)))] /\
  drop_timer h (pending s) = [].
Proof.
  intros H Hp. unfold is_pending in Hp.
  destruct (single_pending_cases s H) as [E | (t & E & _)].
  - rewrite E in Hp. discriminate.
  - rewrite E in Hp. simpl in Hp. rewrite orb_false_r in Hp.
    apply Nat.eqb_eq in Hp. subst h.
    rewrite E. simpl hd. split; [destruct t; reflexivity | apply drop_timer_only].
Qed.

Lemma checkIdle_idle (now : Z) (s : detector) :
  timeout s <= now - lastRequestTime s ->
  checkIdle now s = resolve now s.
Proof.
  intros H. unfold checkIdle.
  destruct (Z.leb_spec (timeout s) (now - lastRequestTime s)); [reflexivity | lia].
Qed.

Lemma checkIdle_early (now : Z) (s : detector) :
  now - lastRequestTime s < timeout s ->
  checkIdle now s = setTimeout (timeout s) now (clearTimeout s).
Proof.
  intros H. unfold checkIdle.
  destruct (Z.leb_spec (timeout s) (now - lastRequestTime s)); [lia | reflexivity].
Qed.

Lemma clearTimeout_fields (s : detector) :
  timeout (clearTimeout s) = timeout s /\
  lastRequestTime (clearTimeout s) = lastRequestTime s /\
  resolved (clearTimeout s) = resolved s /\
  next_handle (clearTimeout s) = next_handle s.
Proof. unfold clearTimeout. destruct (idleTimeout s); simpl; auto. Qed.

Lemma step_single_pending (e : event) (s s' : detector) :
  single_pending s -> step e s = Some s' -> single_pending s'.
Proof.
  intros H Hs. destruct e as [now | h now]; simpl in Hs.
  - injection Hs as <-. unfold single_pending.
    rewrite (onRequest_pending now s H).
    apply (onRequest_fields now s).
  - destruct (is_pending h s) eqn:Hp; [|discriminate].
    injection Hs as <-.
    destruct (fire_takes_the_timer h s H Hp) as [_ Ht].
    unfold checkIdle.
    destruct (timeout (take_timer h s) <=? now - lastRequestTime (take_timer h s)).
    + unfold single_pending; simpl. rewrite Ht. exact I.
    + assert (Hsp : single_pending (take_timer h s))
        by (unfold single_pending; simpl; rewrite Ht; exact I).
      unfold single_pending, setTimeout; simpl pending.
      rewrite (clearTimeout_pending _ Hsp). reflexivity.
Qed.

Lemma start_single_pending (T t0 : Z) : single_pending (start T t0).
Proof. reflexivity. Qed.

Lemma run_single_pending (evs : list event) :
  forall s s', single_pending s -> run evs s = Some s' -> single_pending s'.
Proof.
  induction evs as [|e evs IH]; intros s s' H Hr; simpl in Hr.
  - injection Hr as <-. exact H.
  - destruct (step e s) as [s1|] eqn:Hs; [|discriminate].
    apply (IH s1 s'); [eapply step_single_pending; eassumption | exact Hr].
Qed.

Lemma step_timeout (e : event) (s s' : detector) :
  step e s = Some s' -> timeout s' = timeout s.
Proof.
  destruct e as [now | h now]; simpl; intros Hs.
  - injection Hs as <-. apply onRequest_fields.
  - destruct (is_pending h s); [|discriminate]. injection Hs as <-.
    unfold checkIdle.
    destruct (timeout (take_timer h s) <=? now - lastRequestTime (take_timer h s));
      simpl; [reflexivity|].
    apply (clearTimeout_fields (take_timer h s)).
Qed.

Lemma run_timeout (evs : list event) :
  forall s s', run evs s = Some s' -> timeout s' = timeout s.
Proof.
  induction evs as [|e evs IH]; intros s s' Hr; simpl in Hr.
  - now injection Hr as <-.
  - destruct (step e s) as [s1|] eqn:Hs; [|discriminate].
    rewrite (IH _ _ Hr). eapply step_timeout; eassumption.
Qed.

(** The premature branch of the check, on a one-timer table. *)
Lemma fire_early (h : nat) (now : Z) (s s' : detector) :
  single_pending s ->
  step (Fire h now) s = Some s' ->
  now - lastRequestTime s < timeout s ->
  pending s' = [Timer (next_handle s) now (timeout s)] /\
  idleTimeout s' = Some (next_handle s) /\
  resolved s' = resolved s /\
  lastRequestTime s' = lastRequestTime s.
Proof.
  intros H Hs Hlt. simpl in Hs.
  destruct (is_pending h s) eqn:Hp; [|discriminate]. injection Hs as <-.
  destruct (fire_takes_the_timer h s H Hp) as [_ Ht].
  rewrite checkIdle_early by exact Hlt.
  assert (Hsp : single_pending (take_timer h s))
    by (unfold single_pending; simpl; rewrite Ht; exact I).
  destruct (clearTimeout_fields (take_timer h s)) as (E1 & E2 & E3 & E4).
  unfold setTimeout; simpl.
  rewrite (clearTimeout_pending _ Hsp), E2, E3, E4. simpl. auto.
Qed.

(** The other branch: the elapsed time has reached the timeout. *)
Lemma fire_idle (h : nat) (now : Z) (s s' : detector) :
  single_pending s ->
  step (Fire h now) s = Some s' ->
  timeout s <= now - lastRequestTime s ->
  pending s' = [] /\
  resolved s' = resolved s ++ [now] /\
  lastRequestTime s' = lastRequestTime s.
Proof.
  intros H Hs Hge. simpl in Hs.
  destruct (is_pending h s) eqn:Hp; [|discriminate]. injection Hs as <-.
  destruct (fire_takes_the_timer h s H Hp) as [_ Ht].
  rewrite checkIdle_idle by exact Hge.
  unfold resolve; simpl. rewrite Ht. auto.
Qed.

(** C9. From [start] on, whatever the page requests and whenever the
    timers fire, the host's table holds at most one idle check; both
    rescheduling actions, [onRequest] and the check that fires before the
    timeout has elapsed, leave exactly the check they have just armed in
    the table: the one scheduled before is gone. *)
Theorem one_pending_check (T t0 : Z) (evs : list event) (s : detector) :
  run evs (start T t0) = Some s ->
  (length (pending s) <= 1)%nat /\
  (forall now,
     pending (onRequest now s) = [Timer (next_handle s) now (timeout s)]) /\
  (forall h now s',
     step (Fire h now) s = Some s' ->
     now - lastRequestTime s < timeout s ->
     pending s' = [Timer (next_handle s) now (timeout s)]).
Proof.
  intros Hr.
  assert (H : single_pending s)
    by (eapply run_single_pending; [apply start_single_pending | exact Hr]).
  split; [|split].
  - destruct (single_pending_cases s H) as [E | (t & E & _)]; rewrite E; simpl; lia.
  - intros now. apply onRequest_pending, H.
  - intros h now s' Hs Hlt. apply (fire_early h now s s' H Hs Hlt).
Qed.

Lemma one_pending_check_witness :
  (length (pending (onRequest 100 (onRequest 50 (start 30000 0)))) <= 1)%nat.
Proof.
  exact (proj1 (one_pending_check 30000 0 [Request 50; Request 100] _ eq_refl)).
Defined.

(** C2, as the code has it. When the idle check fires and less than the
    timeout has elapsed since [lastRequestTime], the detector arms the next
    check with the full timeout as its delay, counted from the moment of
    the firing, and stays waiting: [resolve] is not called and
    [lastRequestTime] is kept. *)
Theorem premature_check_rearms_full_timeout
    (T t0 : Z) (evs : list event) (s : detector) (h : nat) (now : Z)
    (s' : detector) :
  run evs (start T t0) = Some s ->
  step (Fire h now) s = Some s' ->
  now - lastRequestTime s < T ->
  pending s' = [Timer (next_handle s) now T] /\
  List.map due (pending s') = [now + T] /\
  idleTimeout s' = Some (next_handle s) /\
  resolved s' = resolved s /\
  lastRequestTime s' = lastRequestTime s.
Proof.
  intros Hr Hs Hlt.
  assert (H : single_pending s)
    by (eapply run_single_pending; [apply start_single_pending | exact Hr]).
  assert (HT : timeout s = T) by (rewrite (run_timeout _ _ _ Hr); reflexivity).
  rewrite <- HT in Hlt.
  destruct (fire_early h now s s' H Hs Hlt) as (E1 & E2 & E3 & E4).
  rewrite HT in E1. rewrite E1. simpl. unfold due; simpl. auto.
Qed.

Lemma premature_check_rearms_full_timeout_witness :
  exists s', step (Fire 0 10000) (start 30000 0) = Some s' /\
             pending s' = [Timer 1 10000 30000].
Proof.
  eexists. split; [reflexivity|].
  apply (premature_check_rearms_full_timeout 30000 0 [] (start 30000 0) 0 10000 _
           eq_refl eq_refl).
  simpl. lia.
Defined.

(** C2, as the claim has it, fails: a check that fires 10 s after the last
    activity with a timeout of 30 s is followed by a check 30 s later, not
    after the remaining 20 s. *)
Lemma premature_check_remaining_time_counterexample :
  let s := start 30000 0 in
  let now := 10000 in
  now - lastRequestTime s < timeout s /\
  exists s', step (Fire 0 now) s = Some s' /\
             List.map delay (pending s') = [30000] /\
             List.map delay (pending s') <> [timeout s - (now - lastRequestTime s)].
Proof.
  simpl. split; [lia|]. eexists. split; [reflexivity|].
  simpl. split; [reflexivity | discriminate].
Qed.

(** A detector that waits, after [start] at [t0] and no request, with the
    check of handle [h] armed at [armed]. *)
Lemma check_before_the_timeout (T t0 armed now : Z) (h : nat) :
  now < t0 + T ->
  step (Fire h now) (Detector T t0 (Some h) [Timer h armed T] (S h) [])
  = Some (Detector T t0 (Some (S h)) [Timer (S h) now T] (S (S h)) []).
Proof.
  intros Hlt. unfold step, is_pending, take_timer, checkIdle, drop_timer.
  cbn [pending existsb List.filter handle timeout lastRequestTime].
  rewrite Nat.eqb_refl. cbn [orb negb].
  destruct (Z.leb_spec T (now - t0)); [lia|].
  unfold setTimeout, clearTimeout, drop_timer. reflexivity.
Qed.

Lemma check_at_the_timeout (T t0 armed now : Z) (h : nat) :
  t0 + T <= now ->
  step (Fire h now) (Detector T t0 (Some h) [Timer h armed T] (S h) [])
  = Some (Detector T t0 (Some h) [] (S h) [now]).
Proof.
  intros Hle. unfold step, is_pending, take_timer, checkIdle, drop_timer.
  cbn [pending existsb List.filter handle timeout lastRequestTime].
  rewrite Nat.eqb_refl. cbn [orb negb].
  destruct (Z.leb_spec T (now - t0)); [|lia].
  reflexivity.
Qed.

Lemma run_app (evs1 evs2 : list event) :
  forall s, run (evs1 ++ evs2) s
            = match run evs1 s with Some s' => run evs2 s' | None => None end.
Proof.
  induction evs1 as [|e evs1 IH]; intros s; cbn [app run]; [reflexivity|].
  destruct (step e s); [apply IH | reflexivity].
Qed.

Lemma checks_app (times1 times2 : list Z) :
  forall h, checks h (times1 ++ times2)
            = checks h times1 ++ checks (h + length times1) times2.
Proof.
  induction times1 as [|t times1 IH]; intros h; cbn [app checks length].
  - rewrite Nat.add_0_r. reflexivity.
  - rewrite IH. replace (S h + length times1)%nat with (h + S (length times1))%nat by lia.
    reflexivity.
Qed.

Lemma last_after_cons (l : list Z) (x a : Z) :
  List.last (x :: l) a = List.last l x.
Proof.
  revert x a. induction l as [|y l IH]; intros x a; [reflexivity|].
  change (List.last (x :: y :: l) a) with (List.last (y :: l) a).
  rewrite (IH y a), (IH y x). reflexivity.
Qed.

(** Checks that all read a time before [t0 + T] leave the detector
    waiting, each one having armed the next a full [T] later. *)
Lemma early_checks_rearm (T t0 : Z) (early : list Z) :
  forall (h : nat) (armed : Z),
    Forall (fun now => now < t0 + T) early ->
    run (checks h early) (Detector T t0 (Some h) [Timer h armed T] (S h) [])
    = Some (Detector T t0 (Some (h + length early)%nat)
              [Timer (h + length early) (List.last early armed) T]
              (S (h + length early)) []).
Proof.
  induction early as [|now early IH]; intros h armed Hall.
  - cbn [checks run length List.last]. rewrite Nat.add_0_r. reflexivity.
  - apply Forall_cons in Hall as [Hnow Hall].
    cbn [checks run]. rewrite (check_before_the_timeout T t0 armed now h Hnow).
    rewrite (IH (S h) now Hall). cbn [length].
    replace (S h + length early)%nat with (h + S (length early))%nat by lia.
    rewrite (last_after_cons early now armed). reflexivity.
Qed.

(** C7. After [start] with timeout [T] at time [t0] the table holds one
    check, due at [t0 + T], and [resolve] has not been called. In a run in
    which no request comes, the checks the host runs while the clock read
    inside them is before [t0 + T] do not call [resolve]: each arms the
    next check a full [T] after its own reading. The first check that
    reads a time [now] with [t0 + T <= now] calls [resolve] there and
    then, once, and arms nothing more. So the signal comes after one timer
    period, at the initial check, exactly when that check reads at least
    [t0 + T] (no earlier check: [early = []]); no request is needed. *)
Theorem request_free_run_signals (T t0 : Z) (early : list Z) (now : Z) :
  Forall (fun t => t < t0 + T) early ->
  t0 + T <= now ->
  pending (start T t0) = [Timer 0 t0 T] /\
  resolved (start T t0) = [] /\
  request_times (checks 0 (early ++ [now])) = [] /\
  (exists s,
     run (checks 0 early) (start T t0) = Some s /\
     resolved s = [] /\
     pending s = [Timer (length early) (List.last early t0) T]) /\
  (exists s',
     run (checks 0 (early ++ [now])) (start T t0) = Some s' /\
     resolved s' = [now] /\
     pending s' = [] /\
     next_handle s' = S (length early)).
Proof.
  intros Hearly Hnow.
  assert (Hrun := early_checks_rearm T t0 early 0 t0 Hearly).
  change (Detector T t0 (Some 0%nat) [Timer 0 t0 T] 1 []) with (start T t0) in Hrun.
  cbn [Nat.add] in Hrun.
  split; [reflexivity|]. split; [reflexivity|]. split; [|split].
  - generalize 0%nat. induction (early ++ [now]) as [|t l IH]; intros h;
      cbn [checks request_times]; [reflexivity | apply IH].
  - eexists. split; [exact Hrun|]. split; reflexivity.
  - rewrite checks_app, run_app, Hrun. cbn [Nat.add checks run].
    rewrite (check_at_the_timeout T t0 _ now _ Hnow).
    eexists. split; [reflexivity|]. repeat split.
Qed.

Lemma request_free_run_signals_witness :
  (exists s', run [Fire 0 30000] (start 30000 0) = Some s' /\
              resolved s' = [30000]) /\
  (exists s', run [Fire 0 29999; Fire 1 59999] (start 30000 0) = Some s' /\
              resolved s' = [59999]).
Proof.
  split.
  - destruct (request_free_run_signals 30000 0 [] 30000)
      as (_ & _ & _ & _ & s' & H1 & H2 & _).
    + constructor.
    + lia.
    + exists s'. split; assumption.
  - destruct (request_free_run_signals 30000 0 [29999] 59999)
      as (_ & _ & _ & _ & s' & H1 & H2 & _).
    + repeat constructor.
    + lia.
    + exists s'. split; assumption.
Defined.

(** C7, as the claim has it, fails: no request comes after a start at 0
    with a timeout of 30 s, the initial check runs with the clock reading
    29 999, and it does not call [resolve]; it arms a second check a full
    timeout later, and the signal comes there, after two timer periods. *)
Lemma early_first_check_counterexample :
  let s := start 30000 0 in
  request_times [Fire 0 29999; Fire 1 59999] = [] /\
  (exists s',
     run [Fire 0 29999] s = Some s' /\
     resolved s' = [] /\
     pending s' = [Timer 1 29999 30000]) /\
  (exists s'',
     run [Fire 0 29999; Fire 1 59999] s = Some s'' /\
     resolved s'' = [59999]).
Proof.
  cbv zeta. split; [reflexivity|]. split.
  - eexists. split; [reflexivity|]. split; reflexivity.
  - eexists. split; reflexivity.
Qed.

Lemma step_debounced (T clock : Z) (e : event) (s s' : detector) :
  debounced T clock s ->
  clock <= ev_time e ->
  gaps_lt T (lastRequestTime s) [e] ->
  step e s = Some s' ->
  debounced T (ev_time e) s' /\
  lastRequestTime s' = last_call (lastRequestTime s) [e].
Proof.
  intros (HT & Hsp & Hle & Hst) Hmono Hgap Hs.
  assert (Hsp' : single_pending s') by (eapply step_single_pending; eassumption).
  assert (HT' : timeout s' = T) by (rewrite (step_timeout _ _ _ Hs); exact HT).
  destruct e as [now | h now]; simpl in Hmono, Hgap |- *.
  - injection Hs as <-.
    destruct (onRequest_fields now s) as (_ & E2 & E3 & _).
    split; [|exact E2]. repeat split; try assumption; [lia|].
    destruct Hst as [[Hres _] | (tau & _ & _ & H1 & H2)]; [|lia].
    left. rewrite E3, (onRequest_pending now s Hsp). split; [exact Hres | discriminate].
  - destruct Hst as [[Hres Hpen] | (tau & _ & Hpen & _)].
    + destruct (Z.le_gt_cases (timeout s) (now - lastRequestTime s)) as [Hge | Hlt].
      * destruct (fire_idle h now s s' Hsp Hs Hge) as (E1 & E2 & E3).
        split; [|exact E3]. repeat split; try assumption; [lia|].
        right. exists now. rewrite E2, Hres, E3. simpl. repeat split; try assumption; lia.
      * destruct (fire_early h now s s' Hsp Hs Hlt) as (E1 & E2 & E3 & E4).
        split; [|exact E4]. repeat split; try assumption; [lia|].
        left. rewrite E3, E1. split; [exact Hres | discriminate].
    + simpl in Hs. unfold is_pending in Hs. rewrite Hpen in Hs. discriminate.
Qed.

Lemma run_debounced (evs : list event) :
  forall T clock s s',
    debounced T clock s ->
    monotone clock evs ->
    gaps_lt T (lastRequestTime s) evs ->
    run evs s = Some s' ->
    (exists clock', debounced T clock' s') /\
    lastRequestTime s' = last_call (lastRequestTime s) evs.
Proof.
  induction evs as [|e evs IH]; intros T clock s s' Hd Hm Hg Hr; simpl in Hr.
  - injection Hr as <-. split; [now exists clock | reflexivity].
  - destruct (step e s) as [s1|] eqn:Hs; [|discriminate].
    destruct Hm as [Hm1 Hm2].
    assert (Hg1 : gaps_lt T (lastRequestTime s) [e])
      by (destruct e; simpl in *; tauto).
    destruct (step_debounced T clock e s s1 Hd Hm1 Hg1 Hs) as [Hd1 E1].
    assert (Hg2 : gaps_lt T (lastRequestTime s1) evs)
      by (rewrite E1; destruct e; simpl in *; tauto).
    destruct (IH T (ev_time e) s1 s' Hd1 Hm2 Hg2 Hr) as [Hd' E'].
    split; [exact Hd'|]. rewrite E', E1. destruct e; reflexivity.
Qed.

Lemma start_debounced (T t0 : Z) : debounced T t0 (start T t0).
Proof.
  repeat split; simpl; try lia. left. split; [reflexivity | discriminate].
Qed.

(** [gaps_lt] counts [start] as the call before the first one. *)
Lemma gaps_lt_calls (T : Z) (evs : list event) :
  forall t0, gaps_lt T t0 evs <-> inter_call_gaps_lt T (t0 :: request_times evs).
Proof.
  induction evs as [|[now | h now] evs IH]; intros t0; simpl.
  - tauto.
  - rewrite IH. simpl. tauto.
  - apply IH.
Qed.

(** C3, as the code has it. Take a run from [start] at [t0] with timeout
    [T], on a clock that does not run backwards, in which every call of
    [onRequest] comes less than [T] after the call before it, and the
    first one less than [T] after [start]. At every point of such a run,
    with [last] the time of the last [onRequest] call so far ([t0] when
    there is none): either [resolve] has not been called, one check is in
    the table, and the host running it at any time from [last + T] on
    makes the detector call [resolve] there, for the only time; or
    [resolve] has been called exactly once, at a time [tau >= last + T],
    and nothing is left in the table. *)
Theorem debounce_signals_once (T t0 : Z) (evs : list event) (s : detector) :
  monotone t0 evs ->
  inter_call_gaps_lt T (t0 :: request_times evs) ->
  run evs (start T t0) = Some s ->
  let last := last_call t0 evs in
  (resolved s = [] /\
   exists t, pending s = [t] /\
     forall now, last + T <= now ->
       exists s', step (Fire (handle t) now) s = Some s' /\
                  resolved s' = [now] /\ pending s' = [])
  \/
  (exists tau, resolved s = [tau] /\ last + T <= tau /\ pending s = []).
Proof.
  intros Hm Hg Hr last. apply gaps_lt_calls in Hg.
  destruct (run_debounced evs T t0 (start T t0) s (start_debounced T t0) Hm Hg Hr)
    as [[clock (HT & Hsp & _ & Hst)] Elast].
  simpl in Elast. fold last in Elast.
  destruct Hst as [[Hres Hpen] | (tau & Hres & Hpen & Hge & _)].
  - left. split; [exact Hres|].
    destruct (single_pending_cases s Hsp) as [E | (t & E & _)]; [contradiction|].
    exists t. split; [exact E|]. intros now Hnow.
    assert (Hs : step (Fire (handle t) now) s
                 = Some (checkIdle now (take_timer (handle t) s))).
    { simpl. unfold is_pending. rewrite E. simpl. rewrite Nat.eqb_refl. reflexivity. }
    eexists. split; [exact Hs|].
    assert (Hge : timeout s <= now - lastRequestTime s) by lia.
    destruct (fire_idle _ _ _ _ Hsp Hs Hge) as (E1 & E2 & _).
    rewrite E2, Hres. split; [reflexivity | exact E1].
  - right. exists tau. rewrite <- Elast. repeat split; assumption || lia.
Qed.

Lemma debounce_signals_once_witness :
  exists tau,
    resolved (checkIdle 60000 (take_timer 2
                (onRequest 30000 (onRequest 10000 (start 30000 0))))) = [tau] /\
    30000 + 30000 <= tau.
Proof.
  destruct (debounce_signals_once 30000 0
              [Request 10000; Request 30000; Fire 2 60000] _
              ltac:(simpl; lia) ltac:(simpl; lia) eq_refl)
    as [[H _] | (tau & H1 & H2 & _)].
  - discriminate H.
  - exists tau. split; [exact H1 | exact H2].
Defined.

(** C3, as the claim has it, fails when the first call comes late. With a
    timeout of 30 s, [start] at 0 and a single call of [onRequest] at 40 s
    (no two calls, so no gap of 30 s or more between calls), [resolve] is
    called at 30 s, which is before the call plus the timeout, and it is
    called again at 70 s. *)
Lemma debounce_late_first_call_counterexample :
  let evs := [Fire 0 30000; Request 40000; Fire 1 70000] in
  monotone 0 evs /\
  inter_call_gaps_lt 30000 (request_times evs) /\
  exists s, run evs (start 30000 0) = Some s /\
            resolved s = [30000; 70000] /\
            30000 < last_call 0 evs + 30000.
Proof.
  simpl. split; [lia|]. split; [exact I|].
  eexists. split; [reflexivity|]. simpl. split; [reflexivity | lia].
Qed.

End IdleDetectorFacts.

(** * Properties of the output store *)

Section OutputStoreFacts.
Import JsString Script Session.
Local Open Scope js_scope.

Lemma bind_emit {B} (e : effect) (k : unit -> M B) (w : world) :
  (emit e >>= k) w = k tt (logged [e] w).
Proof. reflexivity. Qed.

Lemma bind_cong {A B} (m : M A) (k k' : A -> M B) (w : world) :
  (forall a w', k a w' = k' a w') -> (m >>= k) w = (m >>= k') w.
Proof. intros H. unfold bind. destruct (m w) as [[a|e|] w1]; auto. Qed.

Example embedded_timestamp_12 :
  embedded_timestamp (lit "response_12_1700000000000.json") = Some 1700000000000.
Proof. reflexivity. Qed.

Example embedded_timestamp_negative :
  embedded_timestamp (fileName 0 (-5)) = Some (-5).
Proof. reflexivity. Qed.

Example embedded_timestamp_none :
  embedded_timestamp (lit "response_3_12.jsonx") = None.
Proof. reflexivity. Qed.

Example fileName_12 :
  fileName 12 1700000000000 = lit "response_12_1700000000000.json".
Proof. reflexivity. Qed.

Example embedded_index_12 :
  embedded_index (lit "response_12_1700000000000.json") = Some 12%nat.
Proof. reflexivity. Qed.

Example embedded_index_none : embedded_index (lit "notes.txt") = None.
Proof. reflexivity. Qed.

Example sort_by_index_numeric :
  sort_by_index [fileName 10 5; fileName 2 5; fileName 0 5]
  = [fileName 0 5; fileName 2 5; fileName 10 5].
Proof. vm_compute. reflexivity. Qed.

Lemma strip_prefix_app (p s : jsstring) : strip_prefix p (p ++ s) = Some s.
Proof.
  induction p as [|a p IH]; simpl; [reflexivity|].
  rewrite N.eqb_refl. exact IH.
Qed.

Lemma read_digits_units (d : Decimal.uint) (rest : jsstring) :
  read_digits (uint_units d ++ 95%N :: rest) = (d, 95%N :: rest).
Proof.
  induction d; simpl; try rewrite IHd; reflexivity.
Qed.

Lemma embedded_index_fileName (i : nat) (timestamp : Z) :
  embedded_index (fileName i timestamp) = Some i.
Proof.
  unfold embedded_index, fileName. rewrite strip_prefix_app.
  unfold nat_toString.
  change (lit "_" ++ Z_toString timestamp ++ lit ".json")
    with (95%N :: (Z_toString timestamp ++ lit ".json")).
  rewrite read_digits_units.
  destruct (N.to_uint (N.of_nat i)) eqn:E;
    try (rewrite <- E, DecimalN.Unsigned.of_to, Nnat.Nat2N.id; reflexivity).
  exfalso. destruct (N.of_nat i) as [|q]; [discriminate E|].
  exact (DecimalPos.Unsigned.to_uint_nonnil q E).
Qed.

Lemma fileName_inj (i j : nat) (timestamp : Z) :
  fileName i timestamp = fileName j timestamp -> i = j.
Proof.
  intros E. apply (f_equal embedded_index) in E.
  rewrite !embedded_index_fileName in E. congruence.
Qed.

Lemma saved_names_NoDup (timestamp : Z) (K : nat) :
  NoDup (saved_names timestamp K).
Proof.
  unfold saved_names. apply (NoDup_fmap_2_strong (fun i => fileName i timestamp)).
  - intros i j _ _ E. exact (fileName_inj i j timestamp E).
  - apply NoDup_ListNoDup, List.seq_NoDup.
Qed.

Lemma elem_of_saved_names (timestamp : Z) (K : nat) (name : jsstring) :
  name ∈ saved_names timestamp K <->
  exists i, (i < K)%nat /\ name = fileName i timestamp.
Proof.
  unfold saved_names. rewrite list_elem_of_In, List.in_map_iff. split.
  - intros (i & <- & Hi). apply List.in_seq in Hi. exists i. split; [lia | reflexivity].
  - intros (i & Hi & ->). exists i. split; [reflexivity|]. apply List.in_seq. lia.
Qed.

Lemma writeFileSync_ok (name data : jsstring) (w : world) (d : gmap (list N) node) :
  outdir w = Dir d -> d !! name <> Some Directory ->
  writeFileSync name data w
  = (Returned tt, put_outdir (Dir (<[name := File data]> d)) w).
Proof.
  intros Hd Hn. unfold writeFileSync, bind, get_outdir. rewrite Hd.
  destruct (d !! name) as [[?|]|]; try reflexivity. congruence.
Qed.

Lemma writeFileSync_directory (name data : jsstring) (w : world)
    (d : gmap (list N) node) :
  outdir w = Dir d -> d !! name = Some Directory ->
  writeFileSync name data w = (Threw (SystemError EISDIR), w).
Proof.
  intros Hd Hn. unfold writeFileSync, bind, get_outdir. rewrite Hd, Hn. reflexivity.
Qed.

(** The loop of [saveResponses] when no write is refused. *)
Lemma save_from_ok (timestamp : Z) (rest : list jsstring) :
  forall (i0 : nat) (w : world) (d : gmap (list N) node),
    outdir w = Dir d ->
    (forall k, (k < length rest)%nat ->
               d !! fileName (i0 + k) timestamp <> Some Directory) ->
    exists w' d',
      save_from timestamp i0 rest w = (Returned tt, w') /\
      outdir w' = Dir d' /\
      (forall k r, rest !! k = Some r ->
                   d' !! fileName (i0 + k) timestamp = Some (File r)) /\
      (forall name, (forall k, (k < length rest)%nat ->
                               name <> fileName (i0 + k) timestamp) ->
                    d' !! name = d !! name).
Proof.
  induction rest as [|r rest IH]; intros i0 w d Hd Hfree; simpl.
  - exists w, d. split; [reflexivity|]. split; [exact Hd|]. split.
    + intros k r Hk. discriminate Hk.
    + reflexivity.
  - unfold bind at 1.
    rewrite (writeFileSync_ok _ r w d Hd)
      by (specialize (Hfree 0%nat); rewrite Nat.add_0_r in Hfree; apply Hfree; simpl; lia).
    unfold bind at 1, console_log, emit.
    set (w1 := logged _ _).
    destruct (IH (S i0) w1 (<[fileName i0 timestamp := File r]> d)) as (w' & d' & E & Ho & Hw & Hk);
      [reflexivity | |].
    + intros k Hlt. rewrite lookup_insert_ne.
      * replace (S i0 + k)%nat with (i0 + S k)%nat by lia. apply Hfree. simpl. lia.
      * intros E. apply fileName_inj in E. lia.
    + exists w', d'. split; [exact E|]. split; [exact Ho|]. split.
      * intros [|k] r' Hr'; simpl in Hr'.
        -- injection Hr' as <-. rewrite Nat.add_0_r. rewrite Hk.
           ++ apply lookup_insert_eq.
           ++ intros k _ E'. apply fileName_inj in E'. lia.
        -- replace (i0 + S k)%nat with (S i0 + k)%nat by lia. apply (Hw k r' Hr').
      * intros name Hne. rewrite Hk.
        -- apply lookup_insert_ne. specialize (Hne 0%nat).
           rewrite Nat.add_0_r in Hne. intros E'. apply Hne; [simpl; lia | now symmetry].
        -- intros k Hlt. replace (S i0 + k)%nat with (i0 + S k)%nat by lia.
           apply Hne. simpl. lia.
Qed.

(** The loop when the write of index [i0 + j] is the first one refused:
    it throws there, the [j] files before it are written, nothing else is
    touched. *)
Lemma save_from_refused (timestamp : Z) (j : nat) :
  forall (rest : list jsstring) (i0 : nat) (w : world) (d : gmap (list N) node),
    outdir w = Dir d ->
    (j < length rest)%nat ->
    d !! fileName (i0 + j) timestamp = Some Directory ->
    (forall k, (k < j)%nat -> d !! fileName (i0 + k) timestamp <> Some Directory) ->
    exists w' d',
      save_from timestamp i0 rest w = (Threw (SystemError EISDIR), w') /\
      outdir w' = Dir d' /\
      (forall k r, (k < j)%nat -> rest !! k = Some r ->
                   d' !! fileName (i0 + k) timestamp = Some (File r)) /\
      (forall name, (forall k, (k < j)%nat -> name <> fileName (i0 + k) timestamp) ->
                    d' !! name = d !! name).
Proof.
  induction j as [|j IH]; intros rest i0 w d Hd Hlen Hdir Hfree;
    destruct rest as [|r rest]; simpl in Hlen; try lia; simpl.
  - unfold bind at 1. rewrite Nat.add_0_r in Hdir.
    rewrite (writeFileSync_directory _ r w d Hd Hdir).
    exists w, d. split; [reflexivity|]. split; [exact Hd|]. split.
    + intros k r' Hk. lia.
    + reflexivity.
  - unfold bind at 1.
    rewrite (writeFileSync_ok _ r w d Hd)
      by (specialize (Hfree 0%nat); rewrite Nat.add_0_r in Hfree; apply Hfree; lia).
    unfold bind at 1, console_log, emit.
    set (w1 := logged _ _).
    destruct (IH rest (S i0) w1 (<[fileName i0 timestamp := File r]> d))
      as (w' & d' & E & Ho & Hw & Hk); [reflexivity | lia | | |].
    + rewrite lookup_insert_ne.
      * replace (S i0 + j)%nat with (i0 + S j)%nat by lia. exact Hdir.
      * intros E. apply fileName_inj in E. lia.
    + intros k Hlt. rewrite lookup_insert_ne.
      * replace (S i0 + k)%nat with (i0 + S k)%nat by lia. apply Hfree. lia.
      * intros E. apply fileName_inj in E. lia.
    + exists w', d'. split; [exact E|]. split; [exact Ho|]. split.
      * intros [|k] r' Hlt Hr'; simpl in Hr'.
        -- injection Hr' as <-. rewrite Nat.add_0_r. rewrite Hk.
           ++ apply lookup_insert_eq.
           ++ intros k _ E'. apply fileName_inj in E'. lia.
        -- replace (i0 + S k)%nat with (S i0 + k)%nat by lia.
           apply (Hw k r'); [lia | exact Hr'].
      * intros name Hne. rewrite Hk.
        -- apply lookup_insert_ne. specialize (Hne 0%nat).
           rewrite Nat.add_0_r in Hne. intros E'. apply Hne; [lia | now symmetry].
        -- intros k Hlt. replace (S i0 + k)%nat with (i0 + S k)%nat by lia.
           apply Hne. lia.
Qed.

(** [saveResponses] up to its loop: the directory is there when the loop
    starts, created empty if it was missing. *)
Lemma saveResponses_loop (now : Z) (rs : list jsstring) (w : world) :
  outdir w <> NotADirectory ->
  exists w1,
    outdir w1 = Dir (entries_of (outdir w)) /\
    saveResponses now rs w = save_from now 0 rs w1.
Proof.
  intros Hn. unfold saveResponses, bind, console_log, emit, existsSync, get_outdir, ret.
  simpl. destruct (outdir w) as [| |d] eqn:E; [| congruence |].
  - unfold mkdirSync, bind, get_outdir; simpl. rewrite E.
    eexists. split; [|reflexivity]. reflexivity.
  - eexists. split; [|reflexivity]. simpl. exact E.
Qed.

Lemma index_key_fileName (i : nat) (timestamp : Z) :
  index_key (fileName i timestamp) = i.
Proof. unfold index_key. rewrite embedded_index_fileName. reflexivity. Qed.

#[local] Instance by_index_transitive : Transitive by_index.
Proof. intros a b c. unfold by_index. lia. Qed.

#[local] Instance by_index_total : Total by_index.
Proof. intros a b. unfold by_index. lia. Qed.

Lemma names_from_sorted (timestamp : Z) (K : nat) :
  forall i0, Sorted by_index (List.map (fun i => fileName i timestamp) (seq i0 K)).
Proof.
  induction K as [|K IH]; intros i0; simpl; constructor.
  - apply IH.
  - destruct K; simpl; constructor.
    unfold by_index. rewrite !index_key_fileName. lia.
Qed.

(** Whatever the order of a listing of the saved names, sorting it by the
    embedded index gives the names in the order of the loop. *)
Lemma sort_by_index_saved_names (timestamp : Z) (K : nat) (listing : list jsstring) :
  listing ≡ₚ saved_names timestamp K ->
  sort_by_index listing = saved_names timestamp K.
Proof.
  intros Hp. unfold sort_by_index.
  apply (Sorted_unique_strong by_index).
  - intros x1 x2 H1 H2 H12 H21.
    rewrite merge_sort_Permutation, Hp in H1.
    apply elem_of_saved_names in H1 as (i & _ & ->).
    apply elem_of_saved_names in H2 as (j & _ & ->).
    unfold by_index in H12, H21. rewrite !index_key_fileName in H12, H21.
    f_equal. lia.
  - apply Sorted_merge_sort; apply _.
  - apply names_from_sorted.
  - rewrite merge_sort_Permutation. exact Hp.
Qed.

Lemma contents_in_loop_order (timestamp : Z) (d : gmap (list N) node)
    (rs : list jsstring) :
  forall i0,
    (forall k r, rs !! k = Some r ->
                 d !! fileName (i0 + k) timestamp = Some (File r)) ->
    List.map (fun name => d !! name)
      (List.map (fun i => fileName i timestamp) (seq i0 (length rs)))
    = List.map (fun r => Some (File r)) rs.
Proof.
  induction rs as [|r rs IH]; intros i0 H; simpl; [reflexivity|].
  f_equal.
  - specialize (H 0%nat r eq_refl). rewrite Nat.add_0_r in H. exact H.
  - apply IH. intros k r' Hk.
    replace (S i0 + k)%nat with (i0 + S k)%nat by lia. apply H. exact Hk.
Qed.

(** When the output path is taken by something that is not a directory,
    the first write is refused. *)
Lemma saveResponses_not_a_directory (now : Z) (rs : list jsstring) (w : world) :
  outdir w = NotADirectory -> rs <> [] ->
  exists w',
    saveResponses now rs w = (Threw (SystemError ENOTDIR), w') /\
    outdir w' = NotADirectory.
Proof.
  intros Hn Hrs. destruct rs as [|r rs]; [congruence|].
  unfold saveResponses, console_log, emit.
  unfold bind at 1. set (w1 := logged _ w).
  assert (Hn1 : outdir w1 = NotADirectory) by exact Hn.
  unfold bind at 1, existsSync, bind at 1, get_outdir, ret. rewrite Hn1.
  unfold bind at 1, ret. simpl save_from.
  unfold bind at 1, writeFileSync, bind at 1, get_outdir. rewrite Hn1.
  exists w1. split; [reflexivity | exact Hn1].
Qed.

Lemma read_digits_units_dot (d : Decimal.uint) (rest : jsstring) :
  read_digits (uint_units d ++ 46%N :: rest) = (d, 46%N :: rest).
Proof. induction d; simpl; try rewrite IHd; reflexivity. Qed.

(** Every name made from a timestamp gives that timestamp back. *)
Lemma embedded_timestamp_fileName (i : nat) (timestamp : Z) :
  embedded_timestamp (fileName i timestamp) = Some timestamp.
Proof.
  unfold embedded_timestamp, fileName. rewrite strip_prefix_app.
  unfold nat_toString.
  change (lit "_" ++ Z_toString timestamp ++ lit ".json")
    with (95%N :: (Z_toString timestamp ++ lit ".json")).
  rewrite read_digits_units. cbn [snd].
  rewrite <- (DecimalZ.of_to timestamp) at 2.
  unfold Z_toString.
  change (lit ".json") with (46%N :: lit "json").
  destruct (Z.to_int timestamp) as [d|d].
  - assert (E : read_digits (uint_units d ++ 46%N :: lit "json")
                = (d, 46%N :: lit "json"))
      by apply read_digits_units_dot.
    destruct d; cbn [uint_units app] in *; rewrite E; reflexivity.
  - cbn [app]. rewrite read_digits_units_dot. reflexivity.
Qed.

(** The source's loop and function are the open ones at
    [fs.writeFileSync]. *)
Lemma save_from_generic (timestamp : Z) (rest : list jsstring) :
  forall i w, save_from timestamp i rest w
              = save_from_with writeFileSync timestamp i rest w.
Proof.
  induction rest as [|r rest IH]; intros i w; cbn [save_from save_from_with];
    [reflexivity|].
  apply bind_cong. intros _ w1. apply bind_cong. intros _ w2. apply IH.
Qed.

Lemma saveResponses_generic (now : Z) (rs : list jsstring) (w : world) :
  saveResponses now rs w = saveResponses_with writeFileSync now rs w.
Proof.
  unfold saveResponses, saveResponses_with.
  apply bind_cong. intros _ w1. apply bind_cong. intros there w2.
  apply bind_cong. intros _ w3. apply save_from_generic.
Qed.

(** Whatever [write] is, the function reaches its loop, in a world that
    does not depend on the payloads. *)
Lemma saveResponses_with_loop (write : jsstring -> jsstring -> M unit)
    (now : Z) (w : world) :
  exists w1, forall rs,
    saveResponses_with write now rs w = save_from_with write now 0 rs w1.
Proof.
  unfold saveResponses_with, console_log.
  set (w0 := logged [ConsoleLog [Str (lit "Saving JSON responses...")]] w).
  destruct (outdir w0) as [| |d] eqn:E.
  - exists (put_outdir (Dir ∅) w0). intros rs. rewrite bind_emit. fold w0.
    unfold bind at 1, existsSync, bind at 1, get_outdir, ret. rewrite E.
    unfold bind at 1, mkdirSync, bind at 1, get_outdir. rewrite E. reflexivity.
  - exists w0. intros rs. rewrite bind_emit. fold w0.
    unfold bind at 1, existsSync, bind at 1, get_outdir, ret. rewrite E. reflexivity.
  - exists w0. intros rs. rewrite bind_emit. fold w0.
    unfold bind at 1, existsSync, bind at 1, get_outdir, ret. rewrite E. reflexivity.
Qed.

(** Fail fast, whatever makes a write fail: when the writes before index
    [j] return and the write of index [j] throws, the loop ends there,
    with that error and in the world that write left. *)
Lemma save_from_with_fail_fast (write : jsstring -> jsstring -> M unit)
    (timestamp : Z) (j : nat) :
  forall (rest : list jsstring) (i0 : nat) (w wj w' : world) (r : jsstring) (e : error),
    rest !! j = Some r ->
    save_from_with write timestamp i0 (take j rest) w = (Returned tt, wj) ->
    write (fileName (i0 + j) timestamp) r wj = (Threw e, w') ->
    save_from_with write timestamp i0 rest w = (Threw e, w').
Proof.
  induction j as [|j IH]; intros rest i0 w wj w' r e Hr Hpre Hw;
    destruct rest as [|r0 rest]; try discriminate; cbn [take save_from_with] in *.
  - injection Hr as ->. injection Hpre as <-. rewrite Nat.add_0_r in Hw.
    unfold bind at 1. rewrite Hw. reflexivity.
  - unfold bind at 1 in Hpre. unfold bind at 1.
    destruct (write (fileName i0 timestamp) r0 w) as [[[]|e0|] w1]; try discriminate.
    cbv beta in Hpre. unfold console_log in Hpre. rewrite bind_emit in Hpre.
    cbv beta. unfold console_log. rewrite bind_emit.
    apply (IH rest (S i0) _ wj w' r e Hr Hpre).
    replace (S i0 + j)%nat with (i0 + S j)%nat by lia. exact Hw.
Qed.

(** C5. One call of [saveResponses] on [K] payloads, with [now] the one
    reading of the clock before the loop. The [K] names are
    [response_<i>_<now>.json] for [i = 0 .. K-1]: pairwise distinct, each
    giving back its index and all giving back the same timestamp [now].
    When no write is refused the call returns, the file of index [i]
    holds payload [i], no other entry of the directory changes, and any
    listing of the produced names, sorted by embedded index and read
    file by file, gives the payloads in capture order. When the write of
    index [j] is the first one refused (its name is taken by a
    directory), the call throws that error: the files before [j] are
    written and nothing is written from [j] on. When the output path is
    not a directory the first write is refused and the call throws,
    nothing written. And whatever else may make a write fail:
    [saveResponses] is [saveResponses_with] at [fs.writeFileSync], and
    over any [write], when the writes before index [j] return and the
    write of index [j] throws [e], the call throws [e] and ends in the
    world that write left, no later write or log having taken place. *)
Theorem saveResponses_files (now : Z) (rs : list jsstring) (w : world) :
  let d := entries_of (outdir w) in
  let K := length rs in
  (NoDup (saved_names now K) /\ length (saved_names now K) = K /\
   forall i, (i < K)%nat ->
     fileName i now
     = lit "response_" ++ nat_toString i ++ lit "_" ++ Z_toString now ++ lit ".json" /\
     embedded_index (fileName i now) = Some i /\
     embedded_timestamp (fileName i now) = Some now) /\
  (outdir w <> NotADirectory ->
   (forall i, (i < K)%nat -> d !! fileName i now <> Some Directory) ->
   exists w' d',
     saveResponses now rs w = (Returned tt, w') /\
     outdir w' = Dir d' /\
     (forall i r, rs !! i = Some r -> d' !! fileName i now = Some (File r)) /\
     (forall name, name ∉ saved_names now K -> d' !! name = d !! name) /\
     (forall listing, listing ≡ₚ saved_names now K ->
        List.map (fun name => d' !! name) (sort_by_index listing)
        = List.map (fun r => Some (File r)) rs)) /\
  (outdir w <> NotADirectory ->
   forall j, (j < K)%nat ->
     d !! fileName j now = Some Directory ->
     (forall i, (i < j)%nat -> d !! fileName i now <> Some Directory) ->
     exists w' d',
       saveResponses now rs w = (Threw (SystemError EISDIR), w') /\
       outdir w' = Dir d' /\
       (forall i r, (i < j)%nat -> rs !! i = Some r ->
                    d' !! fileName i now = Some (File r)) /\
       (forall name, name ∉ saved_names now j -> d' !! name = d !! name)) /\
  (outdir w = NotADirectory -> rs <> [] ->
   exists w',
     saveResponses now rs w = (Threw (SystemError ENOTDIR), w') /\
     outdir w' = NotADirectory) /\
  (saveResponses now rs w = saveResponses_with writeFileSync now rs w /\
   forall (write : jsstring -> jsstring -> M unit) (j : nat) (r : jsstring)
          (e : error) (wj w' : world),
     rs !! j = Some r ->
     saveResponses_with write now (take j rs) w = (Returned tt, wj) ->
     write (fileName j now) r wj = (Threw e, w') ->
     saveResponses_with write now rs w = (Threw e, w')).
Proof.
  intros d K.
  split; [|split; [|split; [|split]]].
  - split; [apply saved_names_NoDup|]. split.
    + unfold saved_names. rewrite List.length_map, List.length_seq. reflexivity.
    + intros i _. split; [reflexivity|]. split.
      * apply embedded_index_fileName.
      * apply embedded_timestamp_fileName.
  - intros Hn Hfree.
    destruct (saveResponses_loop now rs w Hn) as (w1 & Hw1 & ->). fold d in Hw1.
    destruct (save_from_ok now rs 0 w1 d Hw1 Hfree) as (w' & d' & E & Ho & Hw & Hk).
    exists w', d'. split; [exact E|]. split; [exact Ho|]. split; [exact Hw|]. split.
    + intros name Hname. apply Hk. intros k Hlt ->. apply Hname.
      apply elem_of_saved_names. exists k. split; [exact Hlt | reflexivity].
    + intros listing Hp. rewrite (sort_by_index_saved_names now K listing Hp).
      apply (contents_in_loop_order now d' rs 0 Hw).
  - intros Hn j Hj Hdir Hfree.
    destruct (saveResponses_loop now rs w Hn) as (w1 & Hw1 & ->). fold d in Hw1.
    destruct (save_from_refused now j rs 0 w1 d Hw1 Hj Hdir Hfree)
      as (w' & d' & E & Ho & Hw & Hk).
    exists w', d'. split; [exact E|]. split; [exact Ho|]. split; [exact Hw|].
    intros name Hname. apply Hk. intros k Hlt ->. apply Hname.
    apply elem_of_saved_names. exists k. split; [exact Hlt | reflexivity].
  - apply saveResponses_not_a_directory.
  - split; [apply saveResponses_generic|].
    intros write j r e wj w' Hr Hpre Hw.
    destruct (saveResponses_with_loop write now w) as (w1 & Hloop).
    rewrite Hloop in Hpre. rewrite Hloop.
    apply (save_from_with_fail_fast write now j rs 0 w1 wj w' r e Hr Hpre Hw).
Qed.

Lemma saveResponses_files_witness :
  NoDup (saved_names 1234 2) /\
  embedded_timestamp (fileName 1 1234) = Some 1234 /\
  (exists w', saveResponses 1234 [lit "{}"; lit "[1]"] (boot Missing) = (Returned tt, w')) /\
  (exists w', saveResponses_with (write_with_room 1) 1234 [lit "{}"; lit "[1]"] (boot Missing)
              = (Threw (Error (lit "ENOSPC: no space left on device, write")), w') /\
              outdir w' = Dir {[ fileName 0 1234 := File (lit "{}") ]}).
Proof.
  destruct (saveResponses_files 1234 [lit "{}"; lit "[1]"] (boot Missing))
    as ((Hnd & _ & Hnames) & Hok & _ & _ & _ & Hfail).
  split; [exact Hnd|]. split; [|split].
  - destruct (Hnames 1%nat) as (_ & _ & Hts); [simpl; lia | exact Hts].
  - destruct Hok as (w' & _ & E & _).
    + discriminate.
    + intros i _. simpl. rewrite lookup_empty. discriminate.
    + exists w'. exact E.
  - eexists. split.
    + eapply (Hfail (write_with_room 1) 1%nat); [reflexivity | reflexivity |].
      reflexivity.
    + reflexivity.
Defined.

Lemma unlinkSync_file (name data : jsstring) (w : world) (d : gmap (list N) node) :
  outdir w = Dir d -> d !! name = Some (File data) ->
  unlinkSync name w = (Returned tt, put_outdir (Dir (delete name d)) w).
Proof.
  intros Hd Hn. unfold unlinkSync, bind, get_outdir. rewrite Hd, Hn. reflexivity.
Qed.

Lemma unlinkSync_directory (name : jsstring) (w : world) (d : gmap (list N) node) :
  outdir w = Dir d -> d !! name = Some Directory ->
  unlinkSync name w = (Threw (SystemError EISDIR), w).
Proof.
  intros Hd Hn. unfold unlinkSync, bind, get_outdir. rewrite Hd, Hn. reflexivity.
Qed.

(** Unlinking a duplicate-free list of names that are all files. *)
Lemma unlink_files (ks : list jsstring) :
  forall (w : world) (d : gmap (list N) node),
    outdir w = Dir d ->
    NoDup ks ->
    (forall k, k ∈ ks -> exists data, d !! k = Some (File data)) ->
    exists w' d',
      for_of ks unlink_and_log w = (Returned tt, w') /\
      outdir w' = Dir d' /\
      browser w' = browser w /\ responses w' = responses w /\
      (forall k, k ∈ ks -> d' !! k = None) /\
      (forall k, k ∉ ks -> d' !! k = d !! k).
Proof.
  induction ks as [|k ks IH]; intros w d Hd Hnd Hfiles; simpl.
  - exists w, d. repeat split; try assumption; try reflexivity.
    intros k Hk. inversion Hk.
  - apply NoDup_cons in Hnd as [Hk Hnd].
    destruct (Hfiles k) as [data Hdata]; [left|].
    unfold bind at 1, unlink_and_log at 1, bind at 1.
    rewrite (unlinkSync_file k data w d Hd Hdata).
    unfold console_log, emit. set (w1 := logged _ _).
    destruct (IH w1 (delete k d)) as (w' & d' & E & Ho & Hb & Hr & Hin & Hout);
      [reflexivity | exact Hnd | |].
    + intros k' Hk'. destruct (Hfiles k') as [data' Hdata']; [now right|].
      exists data'. rewrite lookup_delete_ne; [exact Hdata'|]. intros ->. contradiction.
    + exists w', d'. split; [exact E|]. split; [exact Ho|].
      split; [exact Hb|]. split; [exact Hr|]. split.
      * intros k' Hk'. destruct (decide (k' ∈ ks)) as [Hin'|Hnin].
        -- apply Hin, Hin'.
        -- rewrite (Hout k' Hnin). apply elem_of_cons in Hk' as [->|?]; [|contradiction].
           apply lookup_delete_eq.
      * intros k' Hk'. apply not_elem_of_cons in Hk' as [Hne Hnin].
        rewrite (Hout k' Hnin). apply lookup_delete_ne. congruence.
Qed.

(** Unlinking a duplicate-free list of entries one of which is a
    directory: the loop throws; what it leaves is still a directory state
    that holds that entry. *)
Lemma unlink_hits_directory (ks : list jsstring) :
  forall (w : world) (d : gmap (list N) node),
    outdir w = Dir d ->
    NoDup ks ->
    (forall k, k ∈ ks -> is_Some (d !! k)) ->
    (exists k, k ∈ ks /\ d !! k = Some Directory) ->
    exists w' d',
      for_of ks unlink_and_log w = (Threw (SystemError EISDIR), w') /\
      outdir w' = Dir d' /\
      browser w' = browser w /\ responses w' = responses w /\
      (exists k, d' !! k = Some Directory).
Proof.
  induction ks as [|k ks IH]; intros w d Hd Hnd Hpres (k0 & Hk0 & Hdir); simpl.
  - inversion Hk0.
  - apply NoDup_cons in Hnd as [Hk Hnd].
    unfold bind at 1, unlink_and_log at 1, bind at 1.
    destruct (d !! k) as [[data|]|] eqn:Ek.
    + rewrite (unlinkSync_file k data w d Hd Ek).
      unfold console_log, emit. set (w1 := logged _ _).
      assert (Hne : k0 <> k) by (intros ->; congruence).
      destruct (IH w1 (delete k d)) as (w' & d' & E & Ho & Hb & Hr & Hex);
        [reflexivity | exact Hnd | | |].
      * intros k' Hk'. rewrite lookup_delete_ne; [apply Hpres; now right|].
        intros ->. contradiction.
      * exists k0. split.
        -- apply elem_of_cons in Hk0 as [?|?]; [contradiction | assumption].
        -- rewrite lookup_delete_ne; [exact Hdir | congruence].
      * exists w', d'. repeat split; assumption.
    + rewrite (unlinkSync_directory k w d Hd Ek).
      exists w, d. repeat split; try assumption. exists k. exact Ek.
    + destruct (Hpres k) as [x Hx]; [left|]. congruence.
Qed.

Lemma readdir_names (d : gmap (list N) node) (k : jsstring) :
  k ∈ (map_to_list d).*1 <-> is_Some (d !! k).
Proof.
  rewrite list_elem_of_fmap. split.
  - intros ([k' x] & -> & Hin). apply elem_of_map_to_list in Hin. now exists x.
  - intros [x Hx]. exists (k, x). split; [reflexivity|].
    apply elem_of_map_to_list. exact Hx.
Qed.

(** [prepareOutputDirectory] up to its loop, when the directory exists. *)
Lemma prepare_loop (cfg : config) (w : world) (d : gmap (list N) node) :
  outdir w = Dir d ->
  exists w1,
    outdir w1 = Dir d /\ browser w1 = browser w /\ responses w1 = responses w /\
    prepareOutputDirectory cfg w = for_of (map_to_list d).*1 unlink_and_log w1.
Proof.
  intros Hd. unfold prepareOutputDirectory, console_log, emit.
  unfold bind at 1. set (w1 := logged _ w).
  assert (Hd1 : outdir w1 = Dir d) by exact Hd.
  exists w1. split; [exact Hd1|]. split; [reflexivity|]. split; [reflexivity|].
  unfold bind at 1, existsSync, bind at 1, get_outdir, ret. rewrite Hd1.
  unfold bind at 1, readdirSync, bind at 1, get_outdir, ret. rewrite Hd1.
  reflexivity.
Qed.

(** On an existing directory whose entries are all files. *)
Lemma prepare_all_files (cfg : config) (w : world) (d : gmap (list N) node) :
  outdir w = Dir d -> all_files d ->
  exists w', prepareOutputDirectory cfg w = (Returned tt, w') /\
             outdir w' = Dir ∅ /\
             browser w' = browser w /\ responses w' = responses w.
Proof.
  intros Hd Hall.
  destruct (prepare_loop cfg w d Hd) as (w1 & Hd1 & Hb1 & Hr1 & ->).
  destruct (unlink_files (map_to_list d).*1 w1 d Hd1 (NoDup_fst_map_to_list d))
    as (w' & d' & E & Ho & Hb & Hr & Hin & Hout).
  - intros k Hk. apply readdir_names in Hk as [n Hn].
    destruct (Hall k n Hn) as [data ->]. now exists data.
  - exists w'. split; [exact E|]. split; [|split; congruence].
    rewrite Ho. f_equal. apply map_empty. intros k.
    destruct (d !! k) as [n|] eqn:Ek.
    + apply Hin, readdir_names. now exists n.
    + rewrite Hout; [exact Ek|]. rewrite readdir_names, Ek. intros [? ?]; discriminate.
Qed.

Lemma prepare_missing (cfg : config) (w : world) :
  outdir w = Missing ->
  exists w', prepareOutputDirectory cfg w = (Returned tt, w') /\
             outdir w' = Missing /\
             browser w' = browser w /\ responses w' = responses w.
Proof.
  intros Hm. unfold prepareOutputDirectory, console_log, emit.
  unfold bind at 1. set (w1 := logged _ w).
  assert (Hm1 : outdir w1 = Missing) by exact Hm.
  unfold bind at 1, existsSync, bind at 1, get_outdir, ret. rewrite Hm1.
  eexists. split; [reflexivity|]. split; [exact Hm1|]. split; reflexivity.
Qed.

(** C6. [prepareOutputDirectory] on an existing directory whose entries,
    however many, are all files returns and leaves the directory in
    place with no entry; so it does, in particular, on an empty
    directory; on a missing directory it returns and the directory is
    still missing. The variables of [main] are not touched. *)
Theorem prepare_empties_directory (cfg : config) (w : world) :
  (forall d, outdir w = Dir d -> all_files d ->
     exists w', prepareOutputDirectory cfg w = (Returned tt, w') /\
                outdir w' = Dir ∅ /\
                browser w' = browser w /\ responses w' = responses w) /\
  (outdir w = Dir ∅ ->
     exists w', prepareOutputDirectory cfg w = (Returned tt, w') /\
                outdir w' = Dir ∅) /\
  (outdir w = Missing ->
     exists w', prepareOutputDirectory cfg w = (Returned tt, w') /\
                outdir w' = Missing).
Proof.
  split; [intros d; apply prepare_all_files | split].
  - intros Hd. destruct (prepare_all_files cfg w ∅ Hd) as (w' & E & Ho & _).
    + intros k n Hk. rewrite lookup_empty in Hk. discriminate.
    + now exists w'.
  - intros Hm. destruct (prepare_missing cfg w Hm) as (w' & E & Ho & _).
    now exists w'.
Qed.

Lemma prepare_empties_directory_witness :
  exists w',
    prepareOutputDirectory (CONFIG (lit "/app"))
      (boot (Dir (<[lit "a.json" := File (lit "{}")]>
                    (<[lit "b.json" := File (lit "[]")]> ∅))))
    = (Returned tt, w') /\
    outdir w' = Dir ∅.
Proof.
  destruct (prepare_empties_directory (CONFIG (lit "/app"))
              (boot (Dir (<[lit "a.json" := File (lit "{}")]>
                            (<[lit "b.json" := File (lit "[]")]> ∅)))))
    as (Hfiles & _ & _).
  destruct (Hfiles _ eq_refl) as (w' & E & Ho & _).
  - intros k n Hk.
    apply lookup_insert_Some in Hk as [[_ <-] | [_ Hk]]; [eauto|].
    apply lookup_insert_Some in Hk as [[_ <-] | [_ Hk]]; [eauto|].
    rewrite lookup_empty in Hk. discriminate.
  - exists w'. split; assumption.
Defined.

(** What [prepareOutputDirectory] does by the kind of the entries: it
    throws as soon as the loop reaches a directory, and it returns exactly
    when there is none. *)
Lemma prepare_on_directory (cfg : config) (w : world) (d : gmap (list N) node) :
  outdir w = Dir d ->
  ((exists k, d !! k = Some Directory) ->
   exists w' d',
     prepareOutputDirectory cfg w = (Threw (SystemError EISDIR), w') /\
     outdir w' = Dir d' /\ browser w' = browser w /\ responses w' = responses w /\
     exists k, d' !! k = Some Directory) /\
  ((exists w', prepareOutputDirectory cfg w = (Returned tt, w')) <-> all_files d).
Proof.
  intros Hd.
  assert (Hdir : (exists k, d !! k = Some Directory) ->
    exists w' d',
      prepareOutputDirectory cfg w = (Threw (SystemError EISDIR), w') /\
      outdir w' = Dir d' /\ browser w' = browser w /\ responses w' = responses w /\
      exists k, d' !! k = Some Directory).
  { intros (k & Hk).
    destruct (prepare_loop cfg w d Hd) as (w1 & Hd1 & Hb1 & Hr1 & ->).
    destruct (unlink_hits_directory (map_to_list d).*1 w1 d Hd1 (NoDup_fst_map_to_list d))
      as (w' & d' & E & Ho & Hb & Hr & Hex).
    - intros k' Hk'. apply readdir_names, Hk'.
    - exists k. split; [|exact Hk]. apply readdir_names. rewrite Hk. now eexists.
    - exists w', d'. repeat split; try assumption; congruence. }
  split; [exact Hdir|]. split.
  - intros (w' & E) k n Hn. destruct n as [data|]; [now exists data|].
    destruct Hdir as (w'' & d' & E' & _); [now exists k|]. congruence.
  - intros Hall.
    destruct (prepare_all_files cfg w d Hd Hall) as (w' & E & _). now exists w'.
Qed.

End OutputStoreFacts.

(** * Properties of the observer and of the session *)

Section SessionFacts.
Import JsString Script Session.
Local Open Scope js_scope.

(** ** Framing: what a call leaves alone *)

Lemma extends_refl (ok : effect -> Prop) (w : world) : extends ok w w.
Proof. split; [reflexivity|]. exists []. rewrite app_nil_r. split; [reflexivity | constructor]. Qed.

Lemma extends_trans (ok : effect -> Prop) (w1 w2 w3 : world) :
  extends ok w1 w2 -> extends ok w2 w3 -> extends ok w1 w3.
Proof.
  intros (Hb1 & l1 & Ht1 & Hf1) (Hb2 & l2 & Ht2 & Hf2). split; [congruence|].
  exists (l1 ++ l2). split.
  - rewrite Ht2, Ht1, app_assoc. reflexivity.
  - apply Forall_app. split; assumption.
Qed.

Lemma extends_weaken (ok ok' : effect -> Prop) (w w' : world) :
  (forall e, ok e -> ok' e) -> extends ok w w' -> extends ok' w w'.
Proof.
  intros H (Hb & l & Ht & Hf). split; [exact Hb|]. exists l. split; [exact Ht|].
  eapply Forall_impl; eassumption.
Qed.

Lemma framed_weaken {A} (ok ok' : effect -> Prop) (m : M A) :
  (forall e, ok e -> ok' e) -> framed ok m -> framed ok' m.
Proof. intros H Hm w. eapply extends_weaken; [exact H | apply Hm]. Qed.

Lemma console_is_benign (e : effect) : console_effect e -> benign e.
Proof. destruct e; simpl; tauto. Qed.

Lemma framed_ret {A} (ok : effect -> Prop) (a : A) : framed ok (ret a).
Proof. intros w. apply extends_refl. Qed.

Lemma framed_throw {A} (ok : effect -> Prop) (e : error) : framed ok (@throw A e).
Proof. intros w. apply extends_refl. Qed.

Lemma framed_bind {A B} (ok : effect -> Prop) (m : M A) (k : A -> M B) :
  framed ok m -> (forall a, framed ok (k a)) -> framed ok (m >>= k).
Proof.
  intros Hm Hk w. unfold bind. specialize (Hm w).
  destruct (m w) as [[a|e|] w1]; simpl in *; [|exact Hm..].
  eapply extends_trans; [exact Hm | apply Hk].
Qed.

Lemma framed_emit (ok : effect -> Prop) (e : effect) : ok e -> framed ok (emit e).
Proof.
  intros He w. split; [reflexivity|]. exists [e]. split; [reflexivity|].
  constructor; [exact He | constructor].
Qed.

Lemma framed_for_of {A} (ok : effect -> Prop) (l : list A) (body : A -> M unit) :
  (forall x, framed ok (body x)) -> framed ok (for_of l body).
Proof.
  intros Hb. induction l as [|x l IH]; simpl.
  - apply framed_ret.
  - apply framed_bind; [apply Hb | intros _; exact IH].
Qed.

Lemma framed_get_outdir (ok : effect -> Prop) : framed ok get_outdir.
Proof. intros w. apply extends_refl. Qed.

Lemma framed_get_responses (ok : effect -> Prop) : framed ok get_responses.
Proof. intros w. apply extends_refl. Qed.

Lemma framed_set_outdir (ok : effect -> Prop) (p : path_state) : framed ok (set_outdir p).
Proof.
  intros w. split; [reflexivity|]. exists []. simpl. rewrite app_nil_r.
  split; [reflexivity | constructor].
Qed.

Lemma framed_push (ok : effect -> Prop) (x : jsstring) : framed ok (push x).
Proof.
  intros w. split; [reflexivity|]. exists []. simpl. rewrite app_nil_r.
  split; [reflexivity | constructor].
Qed.

Ltac framed_step :=
  first
    [ apply framed_ret | apply framed_throw | apply framed_get_outdir
    | apply framed_get_responses | apply framed_set_outdir | apply framed_push
    | apply framed_emit; exact I
    | apply framed_bind; [|intros ?]
    | match goal with
      | |- framed _ (match ?x with _ => _ end) => destruct x
      end ].

Lemma framed_prepareOutputDirectory (cfg : config) :
  framed console_effect (prepareOutputDirectory cfg).
Proof.
  unfold prepareOutputDirectory, existsSync, readdirSync, console_log.
  repeat framed_step.
  apply framed_for_of. intros file.
  unfold unlink_and_log, unlinkSync, console_log. repeat framed_step.
Qed.

Lemma framed_save_from (timestamp : Z) (rest : list jsstring) :
  forall i, framed console_effect (save_from timestamp i rest).
Proof.
  induction rest as [|r rest IH]; intros i; simpl.
  - apply framed_ret.
  - unfold writeFileSync, console_log. repeat framed_step; apply IH.
Qed.

Lemma framed_saveResponses (now : Z) (rs : list jsstring) :
  framed console_effect (saveResponses now rs).
Proof.
  unfold saveResponses, existsSync, mkdirSync, console_log.
  repeat framed_step; apply framed_save_from.
Qed.

Lemma framed_on_response (cfg : config) (r : response) :
  framed console_effect (on_response cfg r).
Proof.
  unfold on_response, console_log, console_error. repeat framed_step.
Qed.

Lemma framed_await_idle (cfg : config) (evs : list page_event) :
  forall d, framed console_effect (await_idle cfg evs d).
Proof.
  induction evs as [|e evs IH]; intros d; simpl.
  - destruct (IdleDetector.resolved d); unfold console_log.
    + intros w. apply extends_refl.
    + repeat framed_step.
  - destruct (IdleDetector.resolved d); unfold console_log; [|repeat framed_step].
    destruct e as [now | r | h now].
    + apply IH.
    + apply framed_bind; [apply framed_on_response | intros _; apply IH].
    + match goal with
      | |- framed _ (match ?x with _ => _ end) => destruct x
      end; apply IH.
Qed.

Lemma framed_main_page (h : host) : framed benign (main_page h).
Proof.
  unfold main_page, host_call, console_log. repeat framed_step.
Qed.

Lemma framed_main_capture (h : host) : framed benign (main_capture h).
Proof.
  unfold main_capture, waitForNetworkIdle, console_log.
  repeat first
    [ apply framed_for_of; intros ?;
      apply (framed_weaken console_effect); [exact console_is_benign|];
      apply framed_on_response
    | apply (framed_weaken console_effect);
      [exact console_is_benign | apply framed_await_idle]
    | apply (framed_weaken console_effect);
      [exact console_is_benign | apply framed_saveResponses]
    | framed_step ].
Qed.

(** ** The response observer *)

Example trim_both_ends : trim (lit "  a b  ") = lit "a b".
Proof. reflexivity. Qed.

Example trim_no_break_space : trim [160%N; 9%N; 10%N; 8232%N] = [].
Proof. reflexivity. Qed.

Example includes_substring :
  includes (lit "abcd") (lit "bc") = true /\
  includes (lit "abcd") (lit "cb") = false /\
  includes (lit "abcd") [] = true.
Proof. repeat split. Qed.

Example capture_run_saves :
  fst (script capture_run Missing) = Some 0 /\
  responses (snd (script capture_run Missing)) = [lit "[1,2]"; lit "[]"] /\
  outdir (snd (script capture_run Missing))
  = Dir (<[fileName 1 32001 := File (lit "[]")]>
           (<[fileName 0 32001 := File (lit "[1,2]")]> ∅)).
Proof. vm_compute. repeat split. Qed.

Lemma trimStart_nil (s : jsstring) :
  trimStart s = [] <-> forall c, c ∈ s -> is_white_space c = true.
Proof.
  induction s as [|a s IH]; simpl.
  - split; [intros _ c Hc; inversion Hc | reflexivity].
  - destruct (is_white_space a) eqn:Ea.
    + rewrite IH. split.
      * intros H c Hc. apply elem_of_cons in Hc as [->|Hc]; [exact Ea | apply H, Hc].
      * intros H c Hc. apply H. now right.
    + split; [discriminate|]. intros H. specialize (H a). rewrite Ea in H.
      assert (false = true) by (apply H; left). discriminate.
Qed.

Lemma trimStart_subset (s : jsstring) (c : N) : c ∈ trimStart s -> c ∈ s.
Proof.
  induction s as [|a s IH]; simpl; [auto|].
  destruct (is_white_space a); [|auto]. intros H. right. apply IH, H.
Qed.

Lemma trimStart_keeps_content (s : jsstring) :
  has_content s <-> has_content (trimStart s).
Proof.
  split.
  - induction s as [|a s IH]; simpl; [auto|].
    destruct (is_white_space a) eqn:Ea; [|auto].
    intros (c & Hc & Hw). apply IH. exists c. split; [|exact Hw].
    apply elem_of_cons in Hc as [->|Hc]; [congruence | exact Hc].
  - intros (c & Hc & Hw). exists c. split; [apply trimStart_subset, Hc | exact Hw].
Qed.

Lemma has_content_rev (s : jsstring) : has_content s <-> has_content (rev s).
Proof.
  unfold has_content. split; intros (c & Hc & Hw); exists c; (split; [|exact Hw]);
    rewrite list_elem_of_In in *; [rewrite <- in_rev | rewrite in_rev]; exact Hc.
Qed.

Lemma has_content_truthy (s : jsstring) :
  (forall c, c ∈ s -> is_white_space c = true) \/ has_content s.
Proof.
  induction s as [|a s [IH|IH]].
  - left. intros c Hc. inversion Hc.
  - destruct (is_white_space a) eqn:Ea.
    + left. intros c Hc. apply elem_of_cons in Hc as [->|Hc]; [exact Ea | apply IH, Hc].
    + right. exists a. split; [left | exact Ea].
  - right. destruct IH as (c & Hc & Hw). exists c. split; [now right | exact Hw].
Qed.

Lemma trimStart_nonempty (s : jsstring) : trimStart s <> [] <-> has_content s.
Proof.
  rewrite trimStart_nil. split.
  - intros H. destruct (has_content_truthy s) as [Hall | Hc]; [contradiction | exact Hc].
  - intros (c & Hc & Hw) Hall. rewrite (Hall c Hc) in Hw. discriminate.
Qed.

Lemma truthy_nonempty (s : jsstring) : truthy s = true <-> s <> [].
Proof. destruct s; simpl; split; congruence. Qed.

(** [responseText.trim()] is truthy exactly when the text has a code unit
    that is not white space. *)
Lemma trim_truthy (s : jsstring) : truthy (trim s) = true <-> has_content s.
Proof.
  unfold trim. rewrite truthy_nonempty.
  rewrite (trimStart_keeps_content s), (has_content_rev (trimStart s)).
  rewrite <- trimStart_nonempty.
  split; intros H E; apply H.
  - rewrite E. reflexivity.
  - apply (f_equal (@rev N)) in E. rewrite rev_involutive in E. exact E.
Qed.

Lemma on_response_returns (cfg : config) (r : response) (w : world) :
  exists w',
    on_response cfg r w = (Returned tt, w') /\
    outdir w' = outdir w /\ browser w' = browser w /\
    responses w' = responses w ++
      match text r with
      | inl b =>
          if includes (request_url r) (apiEndpoint cfg) && truthy (trim b)
          then [b] else []
      | inr _ => []
      end.
Proof.
  unfold on_response.
  destruct (includes (request_url r) (apiEndpoint cfg)); simpl.
  - destruct (text r) as [b|e]; [destruct (truthy (trim b))|];
      (eexists; split; [reflexivity|]); simpl; rewrite ?app_nil_r; auto.
  - destruct (text r); (eexists; split; [reflexivity|]); simpl; rewrite ?app_nil_r; auto.
Qed.

(** C4, as the code has it. The observer always returns. It appends the
    body to [responses] when the URL of the request contains the endpoint,
    the body was read, and the body has a code unit that is not white
    space; the body appended is the text as read, untrimmed. In every
    other case [responses] is left as it was. What [saveResponses] then
    writes for the entry of index [i] is that entry, unchanged. *)
Theorem observer_captures (cfg : config) (r : response) (w : world) (now : Z) :
  exists w',
    on_response cfg r w = (Returned tt, w') /\
    ((exists b, text r = inl b /\
                includes (request_url r) (apiEndpoint cfg) = true /\
                has_content b /\
                responses w' = responses w ++ [b])
     \/
     (responses w' = responses w /\
      ~ exists b, text r = inl b /\
                  includes (request_url r) (apiEndpoint cfg) = true /\
                  has_content b)) /\
    forall w2,
      outdir w2 <> NotADirectory ->
      (forall i, (i < length (responses w'))%nat ->
                 entries_of (outdir w2) !! fileName i now <> Some Directory) ->
      exists w3 d',
        saveResponses now (responses w') w2 = (Returned tt, w3) /\
        outdir w3 = Dir d' /\
        forall i b, responses w' !! i = Some b ->
                    d' !! fileName i now = Some (File b).
Proof.
  destruct (on_response_returns cfg r w) as (w' & E & _ & _ & Hr).
  exists w'. split; [exact E|]. split.
  - destruct (text r) as [b|e].
    + destruct (includes (request_url r) (apiEndpoint cfg)) eqn:Ei; simpl in Hr.
      * destruct (truthy (trim b)) eqn:Et.
        -- left. exists b. repeat split; [|exact Hr]. apply trim_truthy, Et.
        -- right. rewrite app_nil_r in Hr. split; [exact Hr|].
           intros (b' & Eb & _ & Hc). injection Eb as <-.
           apply trim_truthy in Hc. congruence.
      * right. rewrite app_nil_r in Hr. split; [exact Hr|].
        intros (b' & _ & Hf & _). discriminate.
    + right. rewrite app_nil_r in Hr. split; [exact Hr|].
      intros (b' & Eb & _). discriminate.
  - intros w2 Hn Hfree.
    destruct (saveResponses_loop now (responses w') w2 Hn) as (w1 & Hw1 & ->).
    destruct (save_from_ok now (responses w') 0 w1 _ Hw1 Hfree)
      as (w3 & d' & E3 & Ho & Hw & _).
    exists w3, d'. split; [exact E3|]. split; [exact Ho | exact Hw].
Qed.

Lemma observer_captures_witness :
  exists w',
    on_response (CONFIG (lit "/app"))
      (Response (apiEndpoint (CONFIG (lit "/app")) ++ lit "?lat=45")
                (inl (lit " {} ")))
      (boot Missing) = (Returned tt, w') /\
    exists w3 d',
      saveResponses 1234 (responses w') (boot Missing) = (Returned tt, w3) /\
      outdir w3 = Dir d' /\
      forall i b, responses w' !! i = Some b -> d' !! fileName i 1234 = Some (File b).
Proof.
  destruct (observer_captures (CONFIG (lit "/app"))
              (Response (apiEndpoint (CONFIG (lit "/app")) ++ lit "?lat=45")
                        (inl (lit " {} ")))
              (boot Missing) 1234) as (w' & E & _ & Hsave).
  exists w'. split; [exact E|].
  apply (Hsave (boot Missing)).
  - discriminate.
  - intros i _. simpl. rewrite lookup_empty. discriminate.
Defined.

(** C4, as the claim has it, fails on a body of white space: the URL
    contains the endpoint, the body is read and is not empty, and the
    observer appends nothing. *)
Lemma observer_blank_body_counterexample :
  let cfg := CONFIG (lit "/app") in
  let r := Response (apiEndpoint cfg) (inl (lit " ")) in
  includes (request_url r) (apiEndpoint cfg) = true /\
  text r = inl (lit " ") /\ lit " " <> [] /\
  exists w', on_response cfg r (boot Missing) = (Returned tt, w') /\
             responses w' = [].
Proof.
  simpl. split; [vm_compute; reflexivity|]. split; [reflexivity|].
  split; [discriminate|]. eexists. split; [vm_compute; reflexivity | reflexivity].
Qed.

(** ** The session *)

Lemma bind_returned {A B} (m : M A) (k : A -> M B) (w w' : world) (a : A) :
  m w = (Returned a, w') -> (m >>= k) w = k a w'.
Proof. intros E. unfold bind. rewrite E. reflexivity. Qed.

Lemma bind_threw {A B} (m : M A) (k : A -> M B) (w w' : world) (e : error) :
  m w = (Threw e, w') -> (m >>= k) w = (Threw e, w').
Proof. intros E. unfold bind. rewrite E. reflexivity. Qed.

(** [main] by the way its [try] block ends. *)
Lemma main_unfold (h : host) (p : path_state) :
  main h (boot p) =
  match main_try h (entered p) with
  | (Pending, w1) => (Pending, w1)
  | (Returned _, w1) => main_finally h w1
  | (Threw e, w1) => main_finally h (logged [caught e] w1)
  end.
Proof.
  unfold main. unfold bind at 1. unfold console_log at 1, emit at 1.
  fold (entered p). unfold try_catch_finally.
  destruct (main_try h (entered p)) as [[[]|e|] w1]; reflexivity.
Qed.

(** The [finally] block with a browser: [close] is called once; the block
    throws what [close] throws. *)
Lemma main_finally_browser (h : host) (w : world) :
  browser w = true ->
  exists w',
    main_finally h w
    = (match close h with None => Returned tt | Some e => Threw e end, w') /\
    trace w' = trace w ++ closing ++
               match close h with None => closed | Some _ => [] end /\
    outdir w' = outdir w /\ responses w' = responses w.
Proof.
  intros Hb. unfold main_finally, bind at 1, get_browser. rewrite Hb.
  unfold console_log, host_call, emit, bind.
  destruct (close h) as [e|]; (eexists; split; [reflexivity|]); simpl;
    rewrite <- ?app_assoc; simpl; auto.
Qed.

Lemma main_finally_no_browser (h : host) (w : world) :
  browser w = false -> main_finally h w = (Returned tt, w).
Proof.
  intros Hb. unfold main_finally, bind at 1, get_browser. rewrite Hb. reflexivity.
Qed.

Lemma main_launch_fails (h : host) (w : world) (e : error) :
  launch h = Some e ->
  main_launch h w = (Threw e, logged [PuppeteerLaunch] w).
Proof. intros E. unfold main_launch, host_call. rewrite E. reflexivity. Qed.

Lemma main_launch_ok (h : host) (w : world) :
  launch h = None ->
  exists w',
    main_launch h w = (Returned tt, w') /\
    browser w' = true /\ trace w' = trace w ++ [PuppeteerLaunch] /\
    outdir w' = outdir w /\ responses w' = responses w.
Proof.
  intros E. unfold main_launch, host_call. rewrite E.
  eexists. split; [reflexivity|]. simpl. auto.
Qed.

(** The [try] block: it never closes the browser nor ends the process;
    [browser] is assigned exactly when the launch succeeds; a failed
    launch is what it throws. *)
Lemma main_try_frame (h : host) (w : world) :
  browser w = false ->
  (exists l, trace (snd (main_try h w)) = trace w ++ l /\ Forall benign l) /\
  browser (snd (main_try h w))
  = match launch h with Some _ => false | None => true end /\
  (forall e, launch h = Some e -> fst (main_try h w) = Threw e).
Proof.
  intros Hb. unfold main_try. destruct (launch h) as [e|] eqn:El.
  - rewrite (bind_threw _ _ _ _ _ (main_launch_fails h w e El)). simpl.
    split; [|split; [exact Hb | intros e' Ee; congruence]].
    exists [PuppeteerLaunch]. split; [reflexivity|]. repeat constructor.
  - destruct (main_launch_ok h w El) as (w' & E & Hb' & Ht & _).
    rewrite (bind_returned _ _ _ _ _ E).
    assert (Hf : framed benign
              (main_page h >> prepareOutputDirectory (CONFIG (dirname h)) >>
               main_capture h)).
    { apply framed_bind; [apply framed_main_page | intros _].
      apply framed_bind; [|intros _; apply framed_main_capture].
      apply (framed_weaken console_effect); [exact console_is_benign|].
      apply framed_prepareOutputDirectory. }
    destruct (Hf w') as (Hb2 & l & Ht2 & Hl).
    split; [|split; [congruence | discriminate]].
    exists (PuppeteerLaunch :: l). split.
    + rewrite Ht2, Ht, <- app_assoc. reflexivity.
    + constructor; [exact I | exact Hl].
Qed.

Lemma closes_app (l1 l2 : list effect) : closes (l1 ++ l2) = (closes l1 + closes l2)%nat.
Proof. unfold closes. rewrite List.filter_app, List.length_app. reflexivity. Qed.

Lemma closes_benign (l : list effect) : Forall benign l -> closes l = 0%nat.
Proof.
  induction 1 as [|e l He _ IH]; [reflexivity|].
  unfold closes in *. simpl. destruct e; simpl in *; try exact IH. destruct He.
Qed.


(** The whole run by the way the [try] block ends. *)
Lemma script_shape (h : host) (p : path_state) (r1 : result unit) (w1 : world) :
  main_try h (entered p) = (r1, w1) ->
  (exists l, trace w1 = trace (entered p) ++ l /\ Forall benign l) /\
  (forall e, launch h = Some e -> r1 = Threw e) /\
  match r1 with
  | Pending => script h p = (None, w1)
  | _ =>
      fst (script h p) = Some (status_of h) /\
      trace (snd (script h p)) = trace w1 ++ report r1 ++ teardown h /\
      outdir (snd (script h p)) = outdir w1 /\
      responses (snd (script h p)) = responses w1
  end.
Proof.
  intros Et.
  destruct (main_try_frame h (entered p) eq_refl) as (Hl & Hb & Hthrow).
  rewrite Et in Hl, Hb, Hthrow. simpl in Hl, Hb, Hthrow.
  split; [exact Hl|]. split; [exact Hthrow|].
  unfold script. rewrite main_unfold, Et.
  unfold status_of, teardown.
  destruct r1 as [[]|e|]; [| |reflexivity].
  - destruct (launch h) as [e0|] eqn:El; [specialize (Hthrow e0 eq_refl); discriminate|].
    destruct (main_finally_browser h w1 Hb) as (w' & -> & Ht & Ho & Hr).
    destruct (close h) as [e'|]; simpl; rewrite Ht; simpl;
      rewrite <- ?app_assoc; auto.
  - destruct (launch h) as [e0|] eqn:El.
    + rewrite main_finally_no_browser by exact Hb. simpl.
      rewrite ?app_nil_r. auto.
    + destruct (main_finally_browser h (logged [caught e] w1) Hb)
        as (w' & -> & Ht & Ho & Hr).
      destruct (close h) as [e'|]; simpl; rewrite Ht; simpl;
        rewrite <- ?app_assoc; auto.
Qed.

Lemma entered_trace (p : path_state) :
  trace (entered p) = [ConsoleLog [Str (lit "Starting script...")]].
Proof. reflexivity. Qed.






Lemma closes_teardown (h : host) :
  closes (teardown h) = match launch h with None => 1%nat | Some _ => 0%nat end.
Proof.
  unfold teardown. destruct (launch h); [|destruct (close h)]; reflexivity.
Qed.





Lemma main_page_ok (h : host) (w : world) :
  newPage h = None -> createCDPSession h = None ->
  exists w',
    main_page h w = (Returned tt, w') /\
    trace w' = trace w ++ page_ready /\
    browser w' = browser w /\ outdir w' = outdir w /\ responses w' = responses w.
Proof.
  intros En Ec. unfold main_page, host_call. rewrite En, Ec.
  eexists. split; [reflexivity|]. simpl. rewrite <- !app_assoc. auto.
Qed.

(** C10. When the output directory holds an entry that is itself a
    directory, [prepareOutputDirectory] throws the error of [unlinkSync]
    on it, and the directory still holds such an entry. In a run that
    reaches that step the session ends there: the error is reported, the
    browser closed, no response observer is registered, no navigation
    started, nothing captured. On an existing directory
    [prepareOutputDirectory] returns exactly when every entry is a
    file. *)
Theorem prepare_refuses_a_subdirectory (h : host) (d : gmap (list N) node) :
  ((exists k, d !! k = Some Directory) ->
   (forall (cfg : config) (w : world), outdir w = Dir d ->
      exists w' d',
        prepareOutputDirectory cfg w = (Threw (SystemError EISDIR), w') /\
        outdir w' = Dir d' /\ exists k, d' !! k = Some Directory) /\
   (launch h = None -> newPage h = None -> createCDPSession h = None ->
    let w := snd (script h (Dir d)) in
    fst (script h (Dir d)) = Some (status_of h) /\
    caught (SystemError EISDIR) ∈ trace w /\
    closes (trace w) = 1%nat /\
    responses w = [] /\
    (PageOnResponse ∉ trace w) /\
    (forall url, PageGoto url ∉ trace w) /\
    exists d', outdir w = Dir d' /\ exists k, d' !! k = Some Directory)) /\
  (forall cfg w, outdir w = Dir d ->
     ((exists w', prepareOutputDirectory cfg w = (Returned tt, w')) <-> all_files d)).
Proof.
  split; [|intros cfg w Hd; apply (prepare_on_directory cfg w d Hd)].
  intros Hdir. split.
  - intros cfg w Hd.
    destruct (proj1 (prepare_on_directory cfg w d Hd) Hdir)
      as (w' & d' & E & Ho & _ & _ & Hk).
    exists w', d'. auto.
  - intros El En Ec w. subst w.
    destruct (main_launch_ok h (entered (Dir d)) El) as (wa & Ea & Hba & Hta & Hoa & Hra).
    destruct (main_page_ok h wa En Ec) as (wb & Eb & Htb & Hbb & Hob & Hrb).
    assert (Hdb : outdir wb = Dir d) by (rewrite Hob, Hoa; reflexivity).
    destruct (proj1 (prepare_on_directory (CONFIG (dirname h)) wb d Hdb) Hdir)
      as (wc & d' & Ec' & Hoc & Hbc & Hrc & Hk).
    destruct (framed_prepareOutputDirectory (CONFIG (dirname h)) wb)
      as (_ & l & Htc & Hl).
    rewrite Ec' in Htc. simpl in Htc.
    assert (Et : main_try h (entered (Dir d)) = (Threw (SystemError EISDIR), wc)).
    { unfold main_try.
      rewrite (bind_returned _ _ _ _ _ Ea), (bind_returned _ _ _ _ _ Eb).
      apply bind_threw, Ec'. }
    destruct (script_shape h (Dir d) _ wc Et) as (_ & _ & Hs & Ht & Ho & Hr).
    assert (Hclose : closes (trace wc) = 0%nat).
    { rewrite Htc, Htb, Hta, !closes_app.
      rewrite (closes_benign l)
        by (eapply Forall_impl; [exact Hl | exact console_is_benign]).
      reflexivity. }
    assert (Hcons : forall e, ~ console_effect e -> e ∉ l).
    { intros e He Hin. rewrite Forall_forall in Hl. exact (He (Hl e Hin)). }
    assert (Hno : forall e, ~ console_effect e -> e <> PuppeteerLaunch ->
                            e <> NewPage -> e <> CreateCDPSession ->
                            e <> BrowserClose -> (forall c, e <> ProcessExit c) ->
                            e ∉ trace (snd (script h (Dir d)))).
    { intros e He H1 H2 H3 H4 H5. rewrite Ht, Htc, Htb, Hta, entered_trace.
      unfold teardown, page_ready, closing, closed, unhandled, caught. rewrite El.
      destruct (close h); simpl;
        repeat (rewrite elem_of_app || rewrite elem_of_cons || rewrite elem_of_nil);
        intros H; decompose [or] H; subst;
        try (apply He; exact I); try congruence;
        try (eapply Hcons; eassumption); try (eapply H5; reflexivity). }
    split; [exact Hs|]. split; [|split; [|split; [|split; [|split]]]].
    + rewrite Ht, !elem_of_app. right. left. left.
    + rewrite Ht, !closes_app, Hclose, closes_teardown, El. reflexivity.
    + rewrite Hr, Hrc, Hrb, Hra. reflexivity.
    + apply Hno; simpl; try tauto; discriminate.
    + intros url. apply Hno; simpl; try tauto; discriminate.
    + exists d'. rewrite Ho. auto.
Qed.

Lemma prepare_refuses_a_subdirectory_witness :
  fst (script all_succeeds (Dir old_output)) = Some 0 /\
  responses (snd (script all_succeeds (Dir old_output))) = [].
Proof.
  destruct (prepare_refuses_a_subdirectory all_succeeds old_output) as [H _].
  destruct H as [_ H].
  - exists (lit "archive"). unfold old_output.
    rewrite lookup_insert_ne by discriminate. apply lookup_insert_eq.
  - destruct (H eq_refl eq_refl eq_refl) as (Hs & _ & _ & Hr & _).
    split; [exact Hs | exact Hr].
Defined.

End SessionFacts.

(** * Further properties of the idle detector *)

Section IdleDetectorCoverage.
Import IdleDetector.

Lemma step_check_or_signal (e : event) (s s' : detector) :
  single_pending s -> step e s = Some s' ->
  (exists t, pending s' = [t]) \/ (pending s' = [] /\ resolved s' <> []).
Proof.
  intros Hsp Hs. destruct e as [now | h now].
  - injection Hs as <-. left. rewrite (onRequest_pending now s Hsp). eauto.
  - destruct (Z.le_gt_cases (timeout s) (now - lastRequestTime s)) as [Hge | Hlt].
    + destruct (fire_idle h now s s' Hsp Hs Hge) as (E1 & E2 & _).
      right. split; [exact E1|]. rewrite E2. intros E.
      apply (f_equal (@length Z)) in E. rewrite List.length_app in E. simpl in E. lia.
    + destruct (fire_early h now s s' Hsp Hs Hlt) as (E1 & _). left.
      rewrite E1. eauto.
Qed.

Lemma run_check_or_signal (evs : list event) :
  forall s s',
    single_pending s ->
    ((exists t, pending s = [t]) \/ (pending s = [] /\ resolved s <> [])) ->
    run evs s = Some s' ->
    (exists t, pending s' = [t]) \/ (pending s' = [] /\ resolved s' <> []).
Proof.
  induction evs as [|e evs IH]; intros s s' Hsp H Hr; simpl in Hr.
  - injection Hr as <-. exact H.
  - destruct (step e s) as [s1|] eqn:Hs; [|discriminate].
    apply (IH s1 s'); [eapply step_single_pending; eassumption | | exact Hr].
    eapply step_check_or_signal; eassumption.
Qed.

(** No lost wake-up: in every run from [start], whatever the clock does,
    as long as [resolve] has not been called a check is in the table,
    and its handle is the one the variable holds; the table is empty
    only once [resolve] has been called. *)
Theorem waiting_keeps_a_check (T t0 : Z) (evs : list event) (s : detector) :
  run evs (start T t0) = Some s ->
  (resolved s = [] ->
   exists t, pending s = [t] /\ idleTimeout s = Some (handle t)) /\
  (pending s = [] -> resolved s <> []).
Proof.
  intros Hr.
  assert (Hsp : single_pending s)
    by (eapply run_single_pending; [apply start_single_pending | exact Hr]).
  destruct (run_check_or_signal evs (start T t0) s (start_single_pending T t0)) as [[t Ht] | [Hp Hres]];
    [left; simpl; eauto | exact Hr | |].
  - split.
    + intros _. exists t. split; [exact Ht|].
      unfold single_pending in Hsp. rewrite Ht in Hsp. exact Hsp.
    + intros E. rewrite E in Ht. discriminate.
  - split; [intros E; contradiction | intros _; exact Hres].
Qed.

Lemma waiting_keeps_a_check_witness :
  exists t, pending (onRequest 500 (start 30000 0)) = [t] /\
            idleTimeout (onRequest 500 (start 30000 0)) = Some (handle t).
Proof.
  apply (waiting_keeps_a_check 30000 0 [Request 500] _ eq_refl). reflexivity.
Defined.

(** [resolve] is called by a check only, and only when the clock reading
    of that check is at least the timeout past [lastRequestTime]; a
    request never calls it, and only a request moves [lastRequestTime].
    This holds at every step of every run, whatever the clock and the
    host's timers do. *)
Theorem resolve_needs_the_timeout
    (T t0 : Z) (evs : list event) (s : detector) (e : event) (s' : detector) :
  run evs (start T t0) = Some s ->
  step e s = Some s' ->
  match e with
  | Request now =>
      resolved s' = resolved s /\ lastRequestTime s' = now
  | Fire h now =>
      lastRequestTime s' = lastRequestTime s /\
      ((resolved s' = resolved s /\ now < lastRequestTime s + T) \/
       (resolved s' = resolved s ++ [now] /\ lastRequestTime s + T <= now))
  end.
Proof.
  intros Hr Hs.
  assert (Hsp : single_pending s)
    by (eapply run_single_pending; [apply start_single_pending | exact Hr]).
  assert (HT : timeout s = T) by (rewrite (run_timeout _ _ _ Hr); reflexivity).
  destruct e as [now | h now].
  - injection Hs as <-. destruct (onRequest_fields now s) as (_ & E2 & E3 & _). auto.
  - destruct (Z.le_gt_cases (timeout s) (now - lastRequestTime s)) as [Hge | Hlt].
    + destruct (fire_idle h now s s' Hsp Hs Hge) as (_ & E2 & E3).
      split; [exact E3|]. right. split; [exact E2 | lia].
    + destruct (fire_early h now s s' Hsp Hs Hlt) as (_ & _ & E3 & E4).
      split; [exact E4|]. left. split; [exact E3 | lia].
Qed.

Lemma resolve_needs_the_timeout_witness :
  resolved (checkIdle 29999 (take_timer 0 (start 30000 0))) = [] /\
  29999 < 0 + 30000.
Proof.
  destruct (resolve_needs_the_timeout 30000 0 [] (start 30000 0)
              (Fire 0 29999) _ eq_refl eq_refl) as [_ [H | [H _]]].
  - exact H.
  - discriminate H.
Defined.

Lemma run_idleTimeout_fresh (evs : list event) :
  forall s s',
    (forall h, idleTimeout s = Some h -> (h < next_handle s)%nat) ->
    run evs s = Some s' ->
    forall h, idleTimeout s' = Some h -> (h < next_handle s')%nat.
Proof.
  induction evs as [|e evs IH]; intros s s' H Hr; simpl in Hr.
  - injection Hr as <-. exact H.
  - destruct (step e s) as [s1|] eqn:Hs; [|discriminate].
    apply (IH s1 s'); [|exact Hr].
    destruct e as [now | h0 now]; simpl in Hs.
    + injection Hs as <-. intros h Eh.
      unfold onRequest, setTimeout in *. simpl in *.
      destruct (clearTimeout_fields (set_lastRequestTime now s)) as (_ & _ & _ & E).
      rewrite E in *. simpl in *. injection Eh as <-. lia.
    + destruct (is_pending h0 s); [|discriminate]. injection Hs as <-.
      unfold checkIdle.
      destruct (timeout (take_timer h0 s) <=? now - lastRequestTime (take_timer h0 s)).
      * simpl. exact H.
      * intros h Eh. unfold setTimeout in *. simpl in *.
        destruct (clearTimeout_fields (take_timer h0 s)) as (_ & _ & _ & E).
        rewrite E in *. simpl in *. injection Eh as <-. lia.
Qed.

(** Debounce: once [onRequest] has run, the check that was scheduled
    before it can no longer fire; the host has nothing under its
    handle. *)
Theorem superseded_check_never_fires
    (T t0 : Z) (evs : list event) (s : detector) (t : timer) (now now' : Z) :
  run evs (start T t0) = Some s ->
  t ∈ pending s ->
  step (Fire (handle t) now') (onRequest now s) = None.
Proof.
  intros Hr Ht.
  assert (Hsp : single_pending s)
    by (eapply run_single_pending; [apply start_single_pending | exact Hr]).
  assert (Hfresh : (handle t < next_handle s)%nat).
  { apply (run_idleTimeout_fresh evs (start T t0) s); [|exact Hr|].
    - simpl. intros h [= <-]. lia.
    - destruct (single_pending_cases s Hsp) as [E | (u & E & Eh)];
        rewrite E in Ht; [inversion Ht|].
      apply list_elem_of_singleton in Ht. subst u. exact Eh. }
  simpl. unfold is_pending. rewrite (onRequest_pending now s Hsp). simpl.
  destruct (Nat.eqb_spec (next_handle s) (handle t)) as [E|_]; [lia | reflexivity].
Qed.

Lemma superseded_check_never_fires_witness :
  step (Fire 0 30000) (onRequest 100 (start 30000 0)) = None.
Proof.
  apply (superseded_check_never_fires 30000 0 [] (start 30000 0)
           (Timer 0 0 30000) 100 30000 eq_refl).
  simpl. left.
Defined.

(** From any state a run can reach, waiting or already signalled: a
    request followed by the timeout of silence, the host running the
    check [lag >= 0] late, ends in one more call of [resolve], at that
    moment, with nothing left in the table. The listener is never
    removed, so this also happens after the promise is settled. *)
Theorem request_then_silence_resolves
    (T t0 : Z) (evs : list event) (s : detector) (now lag : Z) :
  run evs (start T t0) = Some s ->
  0 <= lag ->
  exists s',
    run [Request now; Fire (next_handle s) (now + T + lag)] s = Some s' /\
    resolved s' = resolved s ++ [now + T + lag] /\
    pending s' = [] /\
    lastRequestTime s' = now.
Proof.
  intros Hr Hlag.
  assert (Hsp : single_pending s)
    by (eapply run_single_pending; [apply start_single_pending | exact Hr]).
  assert (HT : timeout s = T) by (rewrite (run_timeout _ _ _ Hr); reflexivity).
  destruct (onRequest_fields now s) as (E1 & E2 & E3 & E4).
  assert (Hsp1 : single_pending (onRequest now s))
    by (apply (step_single_pending (Request now) s); [exact Hsp | reflexivity]).
  assert (Hs : step (Fire (next_handle s) (now + T + lag)) (onRequest now s)
               = Some (checkIdle (now + T + lag)
                         (take_timer (next_handle s) (onRequest now s)))).
  { simpl. unfold is_pending. rewrite (onRequest_pending now s Hsp). simpl.
    rewrite Nat.eqb_refl. reflexivity. }
  destruct (fire_idle _ _ _ _ Hsp1 Hs) as (F1 & F2 & F3); [rewrite E1, E2; lia|].
  eexists. split.
  - change (run [Request now; Fire (next_handle s) (now + T + lag)] s)
      with (match step (Fire (next_handle s) (now + T + lag)) (onRequest now s) with
            | Some s' => Some s'
            | None => None
            end).
    rewrite Hs. reflexivity.
  - rewrite F2, E3, F3, E2. auto.
Qed.

Lemma request_then_silence_resolves_witness :
  exists s',
    run [Request 40000; Fire 1 70000] (checkIdle 30000 (take_timer 0 (start 30000 0)))
    = Some s' /\
    resolved s' = [30000; 70000].
Proof.
  destruct (request_then_silence_resolves 30000 0 [Fire 0 30000] _ 40000 0
              eq_refl ltac:(lia)) as (s' & E & R & _).
  exists s'. split; [exact E | exact R].
Defined.

End IdleDetectorCoverage.

(** * Further properties of the output store *)

Section OutputStoreCoverage.
Import JsString Script Session.
Local Open Scope js_scope.

(** The loop of [prepareOutputDirectory] on any list of names, however it
    ends: what is left is part of what was there, and every directory
    entry is still there. *)
Lemma unlink_loop_shrinks (ks : list jsstring) :
  forall (w : world) (d : gmap (list N) node),
    outdir w = Dir d ->
    exists d',
      outdir (snd (for_of ks unlink_and_log w)) = Dir d' /\
      d' ⊆ d /\
      (forall k, d !! k = Some Directory -> d' !! k = Some Directory).
Proof.
  induction ks as [|k ks IH]; intros w d Hd; simpl.
  - exists d. split; [exact Hd|]. split; [reflexivity | auto].
  - unfold bind at 1, unlink_and_log at 1, bind at 1.
    destruct (d !! k) as [[data|]|] eqn:Ek.
    + rewrite (unlinkSync_file k data w d Hd Ek).
      unfold console_log, emit. set (w1 := logged _ _).
      destruct (IH w1 (delete k d) eq_refl) as (d' & Ho & Hsub & Hdirs).
      exists d'. split; [exact Ho|]. split.
      * etransitivity; [exact Hsub | apply delete_subseteq].
      * intros k' Hk'. apply Hdirs. rewrite lookup_delete_ne; [exact Hk'|].
        intros ->. congruence.
    + rewrite (unlinkSync_directory k w d Hd Ek). simpl.
      exists d. split; [exact Hd|]. split; [reflexivity | auto].
    + unfold unlinkSync, bind, get_outdir. rewrite Hd, Ek. simpl.
      exists d. split; [exact Hd|]. split; [reflexivity | auto].
Qed.

(** [prepareOutputDirectory] on an existing directory, whether it returns
    or throws half-way: it only ever removes files. Every entry left was
    there before, unchanged, and no directory entry is removed; nothing
    is created. *)
Theorem prepare_only_removes_files
    (cfg : config) (w : world) (d : gmap (list N) node) :
  outdir w = Dir d ->
  exists d',
    outdir (snd (prepareOutputDirectory cfg w)) = Dir d' /\
    d' ⊆ d /\
    (forall k, d !! k = Some Directory -> d' !! k = Some Directory).
Proof.
  intros Hd. destruct (prepare_loop cfg w d Hd) as (w1 & Hd1 & _ & _ & ->).
  apply unlink_loop_shrinks, Hd1.
Qed.

Lemma prepare_only_removes_files_witness :
  exists d',
    outdir (snd (prepareOutputDirectory (CONFIG (lit "/app")) (boot (Dir old_output))))
    = Dir d' /\
    d' !! lit "archive" = Some Directory.
Proof.
  destruct (prepare_only_removes_files (CONFIG (lit "/app")) (boot (Dir old_output))
              old_output eq_refl) as (d' & Ho & _ & Hdirs).
  exists d'. split; [exact Ho|]. apply Hdirs.
  unfold old_output. rewrite lookup_insert_ne by discriminate. apply lookup_insert_eq.
Defined.

(** When the output path exists and is not a directory, [existsSync] says
    it is there and [readdirSync] throws: [prepareOutputDirectory] throws
    ENOTDIR and leaves the path as it is. *)
Theorem prepare_on_a_plain_file (cfg : config) (w : world) :
  outdir w = NotADirectory ->
  exists w',
    prepareOutputDirectory cfg w = (Threw (SystemError ENOTDIR), w') /\
    outdir w' = NotADirectory /\
    browser w' = browser w /\ responses w' = responses w.
Proof.
  intros Hn. unfold prepareOutputDirectory, console_log, emit.
  unfold bind at 1. set (w1 := logged _ w).
  assert (Hn1 : outdir w1 = NotADirectory) by exact Hn.
  unfold bind at 1, existsSync, bind at 1, get_outdir, ret. rewrite Hn1.
  unfold bind at 1, readdirSync, bind at 1, get_outdir. rewrite Hn1.
  exists w1. split; [reflexivity|]. split; [exact Hn1|]. split; reflexivity.
Qed.

Lemma prepare_on_a_plain_file_witness :
  exists w',
    prepareOutputDirectory (CONFIG (lit "/app")) (boot NotADirectory)
    = (Threw (SystemError ENOTDIR), w').
Proof.
  destruct (prepare_on_a_plain_file (CONFIG (lit "/app")) (boot NotADirectory) eq_refl)
    as (w' & E & _).
  exists w'. exact E.
Defined.

Lemma saveResponses_nothing (now : Z) (w : world) :
  exists w',
    saveResponses now [] w = (Returned tt, w') /\
    outdir w' = match outdir w with Missing => Dir ∅ | p => p end /\
    browser w' = browser w /\ responses w' = responses w.
Proof.
  unfold saveResponses, console_log, emit.
  unfold bind at 1. set (w1 := logged _ w).
  assert (Ho : outdir w1 = outdir w) by reflexivity.
  unfold bind at 1, existsSync, bind at 1, get_outdir, ret.
  unfold bind at 1. simpl save_from. unfold ret.
  destruct (outdir w) as [| |d] eqn:E; rewrite Ho.
  - unfold mkdirSync, bind, get_outdir. rewrite Ho.
    eexists. split; [reflexivity|]. simpl. auto.
  - eexists. split; [reflexivity|]. rewrite Ho. auto.
  - eexists. split; [reflexivity|]. rewrite Ho. auto.
Qed.

(** [saveResponses] with nothing captured: it returns without writing;
    the only thing it does to the file system is to create the output
    directory, empty, when it was missing. Not even an output path taken
    by a plain file makes it throw. *)
Theorem saveResponses_of_nothing (now : Z) (w : world) :
  exists w',
    saveResponses now [] w = (Returned tt, w') /\
    (outdir w = Missing -> outdir w' = Dir ∅) /\
    (outdir w <> Missing -> outdir w' = outdir w).
Proof.
  destruct (saveResponses_nothing now w) as (w' & E & Ho & _).
  exists w'. split; [exact E|]. split.
  - intros Hm. rewrite Ho, Hm. reflexivity.
  - intros Hm. rewrite Ho. destruct (outdir w); congruence.
Qed.

(** A loop that returns has met no directory under its names. *)
Lemma save_from_returned_free (timestamp : Z) (rest : list jsstring) :
  forall (i0 : nat) (w w' : world) (d : gmap (list N) node),
    outdir w = Dir d ->
    save_from timestamp i0 rest w = (Returned tt, w') ->
    forall k, (k < length rest)%nat ->
              d !! fileName (i0 + k) timestamp <> Some Directory.
Proof.
  induction rest as [|r rest IH]; intros i0 w w' d Hd Hret k Hk; simpl in Hk; [lia|].
  cbn [save_from] in Hret. unfold bind at 1 in Hret.
  assert (Hcase : d !! fileName i0 timestamp = Some Directory \/
                  d !! fileName i0 timestamp <> Some Directory)
    by (destruct (d !! fileName i0 timestamp) as [[?|]|];
        [right; discriminate | left; reflexivity | right; discriminate]).
  destruct Hcase as [Hdir | Hfree].
  - rewrite (writeFileSync_directory _ r w d Hd Hdir) in Hret. discriminate.
  - rewrite (writeFileSync_ok _ r w d Hd Hfree) in Hret.
    unfold bind at 1, console_log, emit in Hret.
    destruct k as [|k]; [rewrite Nat.add_0_r; exact Hfree|].
    match type of Hret with
    | save_from _ _ _ ?w1 = _ =>
        specialize (IH (S i0) w1 w' (<[fileName i0 timestamp := File r]> d)
                      eq_refl Hret k ltac:(lia))
    end.
    rewrite lookup_insert_ne in IH.
    + replace (i0 + S k)%nat with (S i0 + k)%nat by lia. exact IH.
    + intros E. apply fileName_inj in E. lia.
Qed.

(** Saving again what has just been saved, under the same timestamp,
    succeeds and changes nothing: each write replaces a file by the same
    content. *)
Theorem saveResponses_again (now : Z) (rs : list jsstring) (w w1 : world) :
  saveResponses now rs w = (Returned tt, w1) ->
  exists w2,
    saveResponses now rs w1 = (Returned tt, w2) /\
    outdir w2 = outdir w1.
Proof.
  intros Hfirst. destruct rs as [|r0 rs'].
  - destruct (saveResponses_nothing now w) as (w1' & E1 & Ho1 & _).
    rewrite E1 in Hfirst. injection Hfirst as <-.
    destruct (saveResponses_nothing now w1') as (w2 & E2 & Ho2 & _).
    exists w2. split; [exact E2|]. rewrite Ho2, Ho1. destruct (outdir w); reflexivity.
  - set (rs := r0 :: rs') in *.
    assert (Hn : outdir w <> NotADirectory).
    { intros Hn. destruct (saveResponses_not_a_directory now rs w Hn) as (w' & E & _);
        [discriminate | congruence]. }
    destruct (saveResponses_loop now rs w Hn) as (wa & Hwa & Ea).
    rewrite Ea in Hfirst.
    pose proof (save_from_returned_free now rs 0 wa w1 _ Hwa Hfirst) as Hfree.
    destruct (save_from_ok now rs 0 wa _ Hwa Hfree) as (w1' & d1 & E1 & Ho1 & Hw1 & _).
    rewrite E1 in Hfirst. injection Hfirst as <-.
    assert (Hn1 : outdir w1' <> NotADirectory) by (rewrite Ho1; discriminate).
    destruct (saveResponses_loop now rs w1' Hn1) as (wb & Hwb & ->).
    rewrite Ho1 in Hwb. simpl in Hwb.
    destruct (save_from_ok now rs 0 wb d1 Hwb) as (w2 & d2 & E2 & Ho2 & Hw2 & Hk2).
    + intros k Hk. destruct (lookup_lt_is_Some_2 rs k Hk) as [r Hr].
      rewrite (Hw1 k r Hr). discriminate.
    + exists w2. split; [exact E2|]. rewrite Ho2, Ho1. f_equal.
      apply map_eq. intros name.
      destruct (decide (name ∈ saved_names now (length rs))) as [Hin | Hout].
      * apply elem_of_saved_names in Hin as (k & Hk & ->).
        destruct (lookup_lt_is_Some_2 rs k Hk) as [r Hr].
        pose proof (Hw1 k r Hr) as H1. pose proof (Hw2 k r Hr) as H2.
        cbn [Nat.add] in H1, H2. rewrite H1, H2. reflexivity.
      * apply Hk2. intros k Hk ->. apply Hout, elem_of_saved_names.
        exists k. split; [exact Hk | reflexivity].
Qed.

Lemma saveResponses_again_witness :
  exists w2,
    saveResponses 7 [lit "{}"]
      (snd (saveResponses 7 [lit "{}"] (boot Missing))) = (Returned tt, w2) /\
    outdir w2 = outdir (snd (saveResponses 7 [lit "{}"] (boot Missing))).
Proof.
  apply (saveResponses_again 7 [lit "{}"] (boot Missing)). reflexivity.
Defined.

Lemma uint_units_inj (d d' : Decimal.uint) : uint_units d = uint_units d' -> d = d'.
Proof.
  revert d'. induction d; intros d' E; destruct d'; simpl in E;
    try discriminate; try reflexivity; injection E as E; f_equal; apply IHd, E.
Qed.

Lemma uint_units_no_sign (d : Decimal.uint) (l : jsstring) : uint_units d <> 45%N :: l.
Proof. destruct d; simpl; discriminate. Qed.

Lemma Z_toString_inj (a b : Z) : Z_toString a = Z_toString b -> a = b.
Proof.
  unfold Z_toString. intros E. apply DecimalZ.to_int_inj.
  destruct (Z.to_int a) as [d|d], (Z.to_int b) as [d'|d'].
  - f_equal. apply uint_units_inj, E.
  - exfalso. exact (uint_units_no_sign _ _ E).
  - exfalso. symmetry in E. exact (uint_units_no_sign _ _ E).
  - f_equal. injection E as E. apply uint_units_inj, E.
Qed.

(** A file name determines both the index and the timestamp it was made
    from: two writes share a name only when they are the same write of
    the same call. *)
Theorem fileName_determines_index_and_timestamp (i j : nat) (ts ts' : Z) :
  fileName i ts = fileName j ts' -> i = j /\ ts = ts'.
Proof.
  intros E.
  assert (Hij : i = j).
  { apply (f_equal embedded_index) in E.
    rewrite !embedded_index_fileName in E. congruence. }
  split; [exact Hij|]. subst j. unfold fileName in E.
  repeat apply app_inv_head in E. apply app_inv_tail in E.
  apply Z_toString_inj, E.
Qed.

Lemma fileName_determines_index_and_timestamp_witness :
  0%nat = 0%nat /\ 1700000000000 = 1700000000000.
Proof.
  apply (fileName_determines_index_and_timestamp 0 0 1700000000000 1700000000000).
  reflexivity.
Defined.

(** A directory filled by the loop from empty holds the saved names and
    nothing else. *)
Lemma exactly_the_saved_files (now : Z) (rs : list jsstring) (d' : gmap (list N) node) :
  (forall k r, rs !! k = Some r -> d' !! fileName k now = Some (File r)) ->
  (forall name, (forall k, (k < length rs)%nat -> name <> fileName k now) ->
                d' !! name = None) ->
  size d' = length rs /\
  forall name n,
    d' !! name = Some n <->
    exists i r, rs !! i = Some r /\ name = fileName i now /\ n = File r.
Proof.
  intros Hw Hk. split.
  - rewrite <- (size_dom (D := gset (list N))).
    assert (Hdom : dom d' = list_to_set (saved_names now (length rs))).
    { apply set_eq. intros name. rewrite elem_of_dom, elem_of_list_to_set. split.
      - intros [n Hn].
        destruct (decide (name ∈ saved_names now (length rs))) as [Hin | Hout];
          [exact Hin|].
        rewrite Hk in Hn; [discriminate|]. intros k Hlt ->. apply Hout.
        apply elem_of_saved_names. eauto.
      - intros Hin. apply elem_of_saved_names in Hin as (k & Hlt & ->).
        destruct (lookup_lt_is_Some_2 rs k Hlt) as [r Hr].
        rewrite (Hw k r Hr). eauto. }
    rewrite Hdom, size_list_to_set by apply saved_names_NoDup.
    unfold saved_names. rewrite List.length_map, List.length_seq. reflexivity.
  - intros name n. split.
    + intros Hn.
      destruct (decide (name ∈ saved_names now (length rs))) as [Hin | Hout].
      * apply elem_of_saved_names in Hin as (k & Hlt & ->).
        destruct (lookup_lt_is_Some_2 rs k Hlt) as [r Hr].
        exists k, r. rewrite (Hw k r Hr) in Hn. injection Hn as <-. auto.
      * rewrite Hk in Hn; [discriminate|]. intros k Hlt ->. apply Hout.
        apply elem_of_saved_names. eauto.
    + intros (i & r & Hr & -> & ->). apply Hw, Hr.
Qed.

(** Clean, then save: on a missing directory, or on one that holds files
    only, [prepareOutputDirectory] followed by [saveResponses] returns and
    leaves a directory that holds exactly one file per payload, file
    [response_<i>_<now>.json] with payload [i], and nothing of what was
    there before. *)
Theorem prepare_then_save (cfg : config) (now : Z) (rs : list jsstring) (w : world) :
  outdir w <> NotADirectory ->
  all_files (entries_of (outdir w)) ->
  exists w' d',
    (prepareOutputDirectory cfg >> saveResponses now rs) w = (Returned tt, w') /\
    outdir w' = Dir d' /\
    size d' = length rs /\
    forall name n,
      d' !! name = Some n <->
      exists i r, rs !! i = Some r /\ name = fileName i now /\ n = File r.
Proof.
  intros Hn Hall.
  assert (Hprep : exists w1,
            prepareOutputDirectory cfg w = (Returned tt, w1) /\
            outdir w1 <> NotADirectory /\ entries_of (outdir w1) = ∅).
  { destruct (outdir w) as [| |d] eqn:E; [| congruence |].
    - destruct (prepare_missing cfg w E) as (w1 & E1 & Ho & _).
      exists w1. rewrite Ho. repeat split; [exact E1 | discriminate].
    - destruct (prepare_all_files cfg w d E Hall) as (w1 & E1 & Ho & _).
      exists w1. rewrite Ho. repeat split; [exact E1 | discriminate]. }
  destruct Hprep as (w1 & E1 & Hn1 & Hempty).
  rewrite (bind_returned _ _ _ _ _ E1).
  destruct (saveResponses_loop now rs w1 Hn1) as (wa & Hwa & ->).
  rewrite Hempty in Hwa.
  destruct (save_from_ok now rs 0 wa ∅ Hwa) as (w' & d' & E & Ho & Hw & Hk).
  - intros k _. rewrite lookup_empty. discriminate.
  - exists w', d'. split; [exact E|]. split; [exact Ho|].
    apply exactly_the_saved_files; [exact Hw|].
    intros name Hname. rewrite (Hk name Hname). apply lookup_empty.
Qed.

Lemma prepare_then_save_witness :
  exists w' d',
    (prepareOutputDirectory (CONFIG (lit "/app")) >> saveResponses 9 [lit "{}"; lit "[]"])
      (boot Missing) = (Returned tt, w') /\
    outdir w' = Dir d' /\ size d' = 2%nat.
Proof.
  destruct (prepare_then_save (CONFIG (lit "/app")) 9 [lit "{}"; lit "[]"] (boot Missing))
    as (w' & d' & E & Ho & Hs & _).
  - discriminate.
  - intros k n Hk. simpl in Hk. rewrite lookup_empty in Hk. discriminate.
  - exists w', d'. auto.
Defined.

End OutputStoreCoverage.

(** * Further properties of the observer and of the session *)

Section SessionCoverage.
Import JsString Script Session.
Local Open Scope js_scope.

Lemma starts_with_spec (p s : jsstring) :
  starts_with p s = true <-> exists b, s = p ++ b.
Proof.
  revert s. induction p as [|a p IH]; intros s; simpl.
  - split; [intros _; now exists s | reflexivity].
  - destruct s as [|c s]; [split; [discriminate | intros [b E]; discriminate]|].
    rewrite andb_true_iff, N.eqb_eq, IH. split.
    + intros [-> [b ->]]. now exists b.
    + intros [b E]. injection E as -> ->. split; [reflexivity | now exists b].
Qed.

(** [s.includes(sub)] is containment: [sub] occurs somewhere in [s]. *)
Lemma includes_spec (s sub : jsstring) :
  includes s sub = true <-> exists a b, s = a ++ sub ++ b.
Proof.
  induction s as [|c s IH]; simpl.
  - rewrite orb_false_r, starts_with_spec. split.
    + intros [b E]. exists [], b. exact E.
    + intros (a & b & E). destruct a; [now exists b|discriminate].
  - rewrite orb_true_iff, starts_with_spec, IH. split.
    + intros [[b E] | (a & b & ->)].
      * exists [], b. exact E.
      * exists (c :: a), b. reflexivity.
    + intros (a & b & E). destruct a as [|c' a].
      * left. now exists b.
      * right. injection E as -> ->. now exists a, b.
Qed.

(** The filter of the observer is containment anywhere in the URL: a
    response whose request URL does not contain the endpoint is ignored
    altogether (nothing read, nothing logged, no variable touched); any
    other is announced on the console, whatever becomes of its body. *)
Theorem observer_matches_by_containment (cfg : config) (r : response) (w : world) :
  ((exists a b, request_url r = a ++ apiEndpoint cfg ++ b) ->
   exists l, trace (snd (on_response cfg r w))
             = trace w ++ ConsoleLog [Str (lit "Map search response detected")] :: l) /\
  ((~ exists a b, request_url r = a ++ apiEndpoint cfg ++ b) ->
   on_response cfg r w = (Returned tt, w)).
Proof.
  rewrite <- includes_spec. unfold on_response.
  destruct (includes (request_url r) (apiEndpoint cfg)); split.
  - intros _. unfold console_log.
    destruct (text r) as [b|e]; [destruct (truthy (trim b))|];
      eexists; cbn [bind emit push console_error ret snd trace logged];
      rewrite <- ?app_assoc; reflexivity.
  - intros H. exfalso. apply H. reflexivity.
  - discriminate.
  - reflexivity.
Qed.

Lemma for_of_on_response (cfg : config) (rs : list response) :
  forall w,
    exists w',
      for_of rs (on_response cfg) w = (Returned tt, w') /\
      outdir w' = outdir w /\ browser w' = browser w /\
      responses w' = responses w ++ omap (captured_body cfg) rs.
Proof.
  induction rs as [|r rs IH]; intros w; simpl.
  - exists w. rewrite app_nil_r. auto.
  - destruct (on_response_returns cfg r w) as (w1 & E1 & Ho1 & Hb1 & Hr1).
    rewrite (bind_returned _ _ _ _ _ E1).
    destruct (IH w1) as (w' & E & Ho & Hb & Hr).
    exists w'. split; [exact E|]. split; [congruence|]. split; [congruence|].
    rewrite Hr, Hr1, <- app_assoc. f_equal. unfold captured_body.
    destruct (text r) as [b|e]; [|reflexivity].
    destruct (includes (request_url r) (apiEndpoint cfg) && truthy (trim b)); reflexivity.
Qed.

Lemma bind_pending {A B} (m : M A) (k : A -> M B) (w w' : world) :
  m w = (Pending, w') -> (m >>= k) w = (Pending, w').
Proof. intros E. unfold bind. rewrite E. reflexivity. Qed.

(** The wait returns or stays pending; it never throws, and it leaves the
    file system and [browser] alone. *)
Lemma await_idle_outcome (cfg : config) (evs : list page_event) :
  forall d w,
    exists w',
      (await_idle cfg evs d w = (Returned tt, w') \/
       await_idle cfg evs d w = (Pending, w')) /\
      outdir w' = outdir w /\ browser w' = browser w /\
      exists more, responses w' = responses w ++ more.
Proof.
  induction evs as [|e evs IH]; intros d w; cbn [await_idle].
  - destruct (IdleDetector.resolved d).
    + exists w. split; [now right|]. repeat split. exists []. now rewrite app_nil_r.
    + eexists. split; [left; reflexivity|]. repeat split. exists [].
      simpl. now rewrite app_nil_r.
  - destruct (IdleDetector.resolved d).
    + destruct e as [now | r | h now].
      * apply IH.
      * destruct (on_response_returns cfg r w) as (w1 & E1 & Ho1 & Hb1 & Hr1).
        rewrite (bind_returned _ _ _ _ _ E1).
        destruct (IH d w1) as (w' & Hres & Ho & Hb & more & Hr).
        exists w'. split; [exact Hres|]. split; [congruence|]. split; [congruence|].
        eexists. rewrite Hr, Hr1, <- app_assoc. reflexivity.
      * destruct (IdleDetector.step (IdleDetector.Fire h now) d); apply IH.
    + eexists. split; [left; reflexivity|]. repeat split. exists [].
      simpl. now rewrite app_nil_r.
Qed.

Lemma waitForNetworkIdle_outcome (cfg : config) (T t0 : Z) (evs : list page_event)
    (w : world) :
  exists w',
    (waitForNetworkIdle cfg T t0 evs w = (Returned tt, w') \/
     waitForNetworkIdle cfg T t0 evs w = (Pending, w')) /\
    outdir w' = outdir w /\ browser w' = browser w /\
    exists more, responses w' = responses w ++ more.
Proof.
  unfold waitForNetworkIdle. rewrite bind_emit.
  apply (await_idle_outcome cfg evs (IdleDetector.start T t0) (logged [PageOnRequest] w)).
Qed.

Lemma unlink_loop_outcome (ks : list jsstring) :
  forall w,
    exists w',
      browser w' = browser w /\ responses w' = responses w /\
      (for_of ks unlink_and_log w = (Returned tt, w') \/
       exists e, for_of ks unlink_and_log w = (Threw e, w')).
Proof.
  induction ks as [|k ks IH]; intros w; simpl.
  - exists w. auto.
  - assert (Hone : exists w1,
              browser w1 = browser w /\ responses w1 = responses w /\
              (unlink_and_log k w = (Returned tt, w1) \/
               exists e, unlink_and_log k w = (Threw e, w1))).
    { unfold unlink_and_log, unlinkSync, bind, get_outdir, console_log, emit.
      destruct (outdir w) as [| |d]; [| |destruct (d !! k) as [[?|]|]];
        (eexists; split; [|split];
         [ | | first [left; reflexivity | right; eexists; reflexivity]]; reflexivity). }
    destruct Hone as (w1 & Hb1 & Hr1 & [E | [e E]]).
    + destruct (IH w1) as (w' & Hb & Hr & Hres).
      exists w'. rewrite !(bind_returned _ _ _ _ _ E).
      split; [congruence|]. split; [congruence | exact Hres].
    + exists w1. rewrite !(bind_threw _ _ _ _ _ E).
      split; [exact Hb1|]. split; [exact Hr1|]. right. now exists e.
Qed.

(** [prepareOutputDirectory] returns, on a missing directory or on one
    that holds files only, leaving no entry; or it throws. *)
Lemma prepare_outcome (cfg : config) (w : world) :
  exists w',
    browser w' = browser w /\ responses w' = responses w /\
    ((prepareOutputDirectory cfg w = (Returned tt, w') /\
      outdir w <> NotADirectory /\ all_files (entries_of (outdir w)) /\
      outdir w' <> NotADirectory /\ entries_of (outdir w') = ∅ /\
      (outdir w = Missing -> outdir w' = Missing)) \/
     (exists e, prepareOutputDirectory cfg w = (Threw e, w'))).
Proof.
  destruct (outdir w) as [| |d] eqn:Eo.
  - destruct (prepare_missing cfg w Eo) as (w' & E & Ho & Hb & Hr).
    exists w'. split; [exact Hb|]. split; [exact Hr|]. left.
    rewrite Ho. repeat split; try discriminate; try assumption.
  - assert (H : exists w',
               prepareOutputDirectory cfg w = (Threw (SystemError ENOTDIR), w') /\
               browser w' = browser w /\ responses w' = responses w).
    { unfold prepareOutputDirectory, console_log, emit.
      unfold bind at 1. set (w1 := logged _ w).
      assert (Hn1 : outdir w1 = NotADirectory) by exact Eo.
      unfold bind at 1, existsSync, bind at 1, get_outdir, ret. rewrite Hn1.
      unfold bind at 1, readdirSync, bind at 1, get_outdir. rewrite Hn1.
      exists w1. split; [reflexivity|]. split; reflexivity. }
    destruct H as (w' & E & Hb & Hr).
    exists w'. split; [exact Hb|]. split; [exact Hr|]. right. eexists. exact E.
  - destruct (prepare_loop cfg w d Eo) as (w1 & Hd1 & Hb1 & Hr1 & Eloop).
    destruct (unlink_loop_outcome (map_to_list d).*1 w1)
      as (w' & Hb & Hr & [E | [e E]]).
    + assert (Hall : all_files d).
      { apply (prepare_on_directory cfg w d Eo). exists w'. congruence. }
      destruct (prepare_all_files cfg w d Eo Hall) as (w2 & E2 & Ho2 & Hb2 & Hr2).
      exists w2. split; [exact Hb2|]. split; [exact Hr2|]. left.
      rewrite Ho2. repeat split; try discriminate; assumption.
    + exists w'. split; [congruence|]. split; [congruence|]. right.
      exists e. congruence.
Qed.

Lemma save_from_keeps_responses (timestamp : Z) (rest : list jsstring) :
  forall i w, responses (snd (save_from timestamp i rest w)) = responses w.
Proof.
  induction rest as [|r rest IH]; intros i w; cbn [save_from]; [reflexivity|].
  unfold bind at 1, writeFileSync, bind at 1, get_outdir.
  destruct (outdir w) as [| |d]; try reflexivity.
  destruct (d !! fileName i timestamp) as [[?|]|]; try reflexivity;
    unfold set_outdir, bind at 1, console_log, emit; rewrite IH; reflexivity.
Qed.

Lemma keeps_responses_saveResponses (now : Z) (rs : list jsstring) (w : world) :
  responses (snd (saveResponses now rs w)) = responses w.
Proof.
  unfold saveResponses, console_log. rewrite bind_emit.
  unfold bind at 1, existsSync, bind at 1, get_outdir, ret.
  set (w1 := logged _ w). change (responses w) with (responses w1).
  destruct (outdir w1) as [| |d] eqn:E.
  - unfold bind at 1, mkdirSync, bind at 1, get_outdir. rewrite E.
    unfold set_outdir. rewrite save_from_keeps_responses. reflexivity.
  - unfold bind at 1, ret. apply save_from_keeps_responses.
  - unfold bind at 1, ret. apply save_from_keeps_responses.
Qed.

(** The part of [main] after [prepareOutputDirectory], entered with the
    output directory missing or empty: the navigation fails and that is
    thrown; or the wait stays pending; or everything is saved, one file
    per captured response. *)
Lemma main_capture_cases (h : host) (w : world) :
  outdir w <> NotADirectory -> entries_of (outdir w) = ∅ ->
  exists w',
    browser w' = browser w /\
    (exists more,
       responses w' = responses w
                      ++ omap (captured_body (CONFIG (dirname h))) (goto_traffic h)
                      ++ more) /\
    ((exists e, goto h = Some e /\ main_capture h w = (Threw e, w') /\
                outdir w' = outdir w) \/
     (goto h = None /\ main_capture h w = (Pending, w') /\ outdir w' = outdir w /\
      exists w2,
        waitForNetworkIdle (CONFIG (dirname h)) (networkIdleTimeout (CONFIG (dirname h)))
          (idle_start h) (idle_events h) w2 = (Pending, w')) \/
     (goto h = None /\ main_capture h w = (Returned tt, w') /\
      exists d', outdir w' = Dir d' /\
        size d' = length (responses w') /\
        forall name n,
          d' !! name = Some n <->
          exists i b, responses w' !! i = Some b /\
                      name = fileName i (save_now h) /\ n = File b)).
Proof.
  intros Hn Hempty. remember (main_capture h w) as res eqn:Eres.
  unfold main_capture, console_log in Eres.
  rewrite !bind_emit in Eres. cbv beta in Eres.
  set (w0 := logged _ (logged _ (logged _ w))) in Eres.
  destruct (for_of_on_response (CONFIG (dirname h)) (goto_traffic h) w0)
    as (w1 & E1 & Ho1 & Hb1 & Hr1).
  change (outdir w0) with (outdir w) in Ho1.
  change (browser w0) with (browser w) in Hb1.
  change (responses w0) with (responses w) in Hr1.
  rewrite (bind_returned _ _ _ _ _ E1) in Eres.
  destruct (goto h) as [e|] eqn:Eg.
  - exists w1. split; [exact Hb1|]. split.
    + exists []. rewrite app_nil_r. exact Hr1.
    + left. exists e. split; [reflexivity|]. split; [exact Eres | exact Ho1].
  - unfold bind at 1, ret in Eres. rewrite !bind_emit in Eres. cbv beta in Eres.
    set (w2 := logged _ (logged _ w1)) in Eres.
    destruct (waitForNetworkIdle_outcome (CONFIG (dirname h))
                (networkIdleTimeout (CONFIG (dirname h))) (idle_start h)
                (idle_events h) w2)
      as (w3 & Hres & Ho3 & Hb3 & more & Hr3).
    change (outdir w2) with (outdir w1) in Ho3. rewrite Ho1 in Ho3.
    change (browser w2) with (browser w1) in Hb3. rewrite Hb1 in Hb3.
    change (responses w2) with (responses w1) in Hr3.
    rewrite Hr1, <- app_assoc in Hr3.
    destruct Hres as [E3 | E3].
    + rewrite (bind_returned _ _ _ _ _ E3) in Eres.
      unfold bind at 1, get_responses in Eres.
      assert (Hn3 : outdir w3 <> NotADirectory) by (rewrite Ho3; exact Hn).
      destruct (saveResponses_loop (save_now h) (responses w3) w3 Hn3) as (wa & Hwa & Es).
      rewrite Ho3, Hempty in Hwa.
      destruct (save_from_ok (save_now h) (responses w3) 0 wa ∅ Hwa)
        as (w4 & d' & E4 & Ho4 & Hw4 & Hk4);
        [intros k _; rewrite lookup_empty; discriminate|].
      assert (Es' : saveResponses (save_now h) (responses w3) w3 = (Returned tt, w4))
        by (rewrite Es; exact E4).
      pose proof (keeps_responses_saveResponses (save_now h) (responses w3) w3) as Hr4.
      destruct (framed_saveResponses (save_now h) (responses w3) w3) as [Hb4 _].
      rewrite Es' in Hr4, Hb4. simpl in Hr4, Hb4.
      rewrite (bind_returned _ _ _ _ _ Es') in Eres. unfold emit in Eres.
      eexists. split; [|split; [|right; right; split; [reflexivity|];
                                   split; [exact Eres|]]].
      * simpl. rewrite Hb4. exact Hb3.
      * exists more. simpl. rewrite Hr4. exact Hr3.
      * exists d'. simpl. split; [exact Ho4|]. rewrite Hr4.
        apply exactly_the_saved_files; [exact Hw4|].
        intros name Hname. rewrite (Hk4 name Hname). apply lookup_empty.
    + rewrite (bind_pending _ _ _ _ E3) in Eres.
      exists w3. split; [exact Hb3|]. split; [exists more; exact Hr3|].
      right. left. split; [reflexivity|]. split; [exact Eres|].
      split; [exact Ho3|]. exists w2. exact E3.
Qed.

Lemma main_page_fails (h : host) (w : world) (e : error) :
  newPage h = Some e \/ (newPage h = None /\ createCDPSession h = Some e) ->
  exists w' l,
    main_page h w = (Threw e, w') /\
    trace w' = trace w ++ l /\ existsb is_goto l = false /\
    browser w' = browser w /\ outdir w' = outdir w /\ responses w' = responses w.
Proof.
  intros [En | [En Ec]]; unfold main_page, host_call; rewrite En; [|rewrite Ec];
    (eexists; eexists; split; [reflexivity|]); simpl;
    rewrite <- ?app_assoc; simpl; auto.
Qed.

Lemma no_goto_in_teardown (h : host) : existsb is_goto (teardown h) = false.
Proof. unfold teardown. destruct (launch h); [|destruct (close h)]; reflexivity. Qed.

Lemma no_goto_in_report (r : result unit) : existsb is_goto (report r) = false.
Proof. destruct r; reflexivity. Qed.

(** A failure before the output store is reached (the launch, the page,
    the DevTools session) ends the run with the directory exactly as it
    was, nothing captured and no navigation attempted. *)
Theorem setup_failure_leaves_the_store (h : host) (p : path_state) :
  launch h <> None \/ newPage h <> None \/ createCDPSession h <> None ->
  fst (script h p) = Some (status_of h) /\
  outdir (snd (script h p)) = p /\
  responses (snd (script h p)) = [] /\
  existsb is_goto (trace (snd (script h p))) = false.
Proof.
  intros Hfail.
  assert (Htry : exists e w1 l,
            main_try h (entered p) = (Threw e, w1) /\
            outdir w1 = p /\ responses w1 = [] /\
            trace w1 = trace (entered p) ++ l /\ existsb is_goto l = false).
  { unfold main_try. destruct (launch h) as [e|] eqn:El.
    - exists e. eexists. exists [PuppeteerLaunch].
      rewrite (bind_threw _ _ _ _ _ (main_launch_fails h (entered p) e El)).
      repeat split.
    - destruct (main_launch_ok h (entered p) El) as (wa & Ea & _ & Hta & Hoa & Hra).
      change (outdir (entered p)) with p in Hoa.
      change (responses (entered p)) with (@nil jsstring) in Hra.
      rewrite (bind_returned _ _ _ _ _ Ea).
      assert (Hpage : exists e, newPage h = Some e \/
                                (newPage h = None /\ createCDPSession h = Some e)).
      { destruct (newPage h) as [e|]; [exists e; now left|].
        destruct (createCDPSession h) as [e|]; [exists e; now right|].
        destruct Hfail as [H | [H | H]]; congruence. }
      destruct Hpage as [e He].
      destruct (main_page_fails h wa e He) as (wb & l & Eb & Htb & Hl & _ & Hob & Hrb).
      rewrite (bind_threw _ _ _ _ _ Eb).
      exists e, wb, (PuppeteerLaunch :: l). split; [reflexivity|].
      split; [congruence|]. split; [congruence|]. split.
      + rewrite Htb, Hta, <- app_assoc. reflexivity.
      + simpl. exact Hl. }
  destruct Htry as (e & w1 & l & Et & Ho & Hr & Ht & Hl).
  destruct (script_shape h p _ w1 Et) as (_ & _ & Hs & Hts & Hos & Hrs).
  split; [exact Hs|]. split; [congruence|]. split; [congruence|].
  rewrite Hts, Ht, !existsb_app, Hl, no_goto_in_report, no_goto_in_teardown.
  reflexivity.
Qed.

Lemma setup_failure_leaves_the_store_witness :
  outdir (snd (script launch_fails (Dir old_output))) = Dir old_output.
Proof.
  refine (proj1 (proj2 (setup_failure_leaves_the_store launch_fails (Dir old_output) _))).
  left. discriminate.
Defined.

(** The [try] block once the browser, the page and the DevTools session
    are there. *)
Lemma main_try_after_setup (h : host) (p : path_state) :
  launch h = None -> newPage h = None -> createCDPSession h = None ->
  exists wb,
    main_try h (entered p)
    = (prepareOutputDirectory (CONFIG (dirname h)) >> main_capture h) wb /\
    outdir wb = p /\ browser wb = true /\ responses wb = [] /\
    trace wb = trace (entered p) ++ PuppeteerLaunch :: page_ready.
Proof.
  intros El En Ec.
  destruct (main_launch_ok h (entered p) El) as (wa & Ea & Hba & Hta & Hoa & Hra).
  change (outdir (entered p)) with p in Hoa.
  change (responses (entered p)) with (@nil jsstring) in Hra.
  destruct (main_page_ok h wa En Ec) as (wb & Eb & Htb & Hbb & Hob & Hrb).
  exists wb. unfold main_try.
  rewrite (bind_returned _ _ _ _ _ Ea), (bind_returned _ _ _ _ _ Eb).
  split; [reflexivity|]. split; [congruence|]. split; [congruence|].
  split; [congruence|]. rewrite Htb, Hta, <- app_assoc. reflexivity.
Qed.

(** The same once [prepareOutputDirectory] has returned. *)
Lemma main_try_after_prepare (h : host) (p : path_state) :
  launch h = None -> newPage h = None -> createCDPSession h = None ->
  p <> NotADirectory -> all_files (entries_of p) ->
  exists wc,
    main_try h (entered p) = main_capture h wc /\
    outdir wc <> NotADirectory /\ entries_of (outdir wc) = ∅ /\
    (p = Missing -> outdir wc = Missing) /\
    browser wc = true /\ responses wc = [].
Proof.
  intros El En Ec Hn Hall.
  destruct (main_try_after_setup h p El En Ec) as (wb & -> & Hob & Hbb & Hrb & _).
  destruct p as [| |d]; [| congruence |].
  - destruct (prepare_missing (CONFIG (dirname h)) wb Hob) as (wc & E & Ho & Hb & Hr).
    exists wc. rewrite (bind_returned _ _ _ _ _ E), Ho.
    repeat split; try congruence; discriminate.
  - destruct (prepare_all_files (CONFIG (dirname h)) wb d Hob Hall) as (wc & E & Ho & Hb & Hr).
    exists wc. rewrite (bind_returned _ _ _ _ _ E), Ho.
    repeat split; try congruence; discriminate.
Qed.

(** A navigation that fails does so after the output directory has been
    cleaned: the run ends with the error reported, the old captures
    gone and nothing saved in their place. *)
Theorem navigation_failure_after_cleaning (h : host) (p : path_state) (e : error) :
  launch h = None -> newPage h = None -> createCDPSession h = None ->
  p <> NotADirectory ->
  all_files (entries_of p) ->
  goto h = Some e ->
  fst (script h p) = Some (status_of h) /\
  caught e ∈ trace (snd (script h p)) /\
  entries_of (outdir (snd (script h p))) = ∅ /\
  (p = Missing -> outdir (snd (script h p)) = Missing).
Proof.
  intros El En Ec Hn Hall Eg.
  destruct (main_try_after_prepare h p El En Ec Hn Hall)
    as (wc & Et & Hnc & Hempty & Hmiss & _ & _).
  destruct (main_capture_cases h wc Hnc Hempty)
    as (w1 & _ & _ & [(e' & Eg' & Ec' & Ho) | [(Eg' & _) | (Eg' & _)]]);
    try congruence.
  assert (e' = e) by congruence. subst e'.
  rewrite <- Et in Ec'.
  destruct (script_shape h p _ w1 Ec') as (_ & _ & Hs & Hts & Hos & _).
  split; [exact Hs|]. split; [|split].
  - rewrite Hts, !elem_of_app. right. left. left.
  - rewrite Hos, Ho. exact Hempty.
  - intros Hp. rewrite Hos, Ho. apply Hmiss, Hp.
Qed.

Lemma navigation_failure_after_cleaning_witness :
  entries_of (outdir (snd (script navigation_fails
     (Dir (<[lit "response_0_1.json" := File (lit "{}")]> ∅))))) = ∅.
Proof.
  refine (proj1 (proj2 (proj2
    (navigation_failure_after_cleaning navigation_fails
       (Dir (<[lit "response_0_1.json" := File (lit "{}")]> ∅)) _
       eq_refl eq_refl eq_refl _ _ eq_refl)))).
  - discriminate.
  - intros k n Hk. simpl in Hk.
    apply lookup_insert_Some in Hk as [[_ <-] | [_ Hk]]; [eauto|].
    rewrite lookup_empty in Hk. discriminate.
Defined.





(** With no request before it, the first check that fires at or after
    the timeout settles the wait, whatever the world. *)
Lemma wait_on_a_quiet_page (cfg : config) (T t0 now : Z)
    (rest : list page_event) (w : world) :
  t0 + T <= now ->
  fst (waitForNetworkIdle cfg T t0 (TimerFires 0 now :: rest) w) = Returned tt.
Proof.
  intros Hnow. unfold waitForNetworkIdle. rewrite bind_emit.
  assert (Hs : IdleDetector.step (IdleDetector.Fire 0 now) (IdleDetector.start T t0)
               = Some (IdleDetector.checkIdle now
                         (IdleDetector.take_timer 0 (IdleDetector.start T t0))))
    by reflexivity.
  destruct (fire_idle 0 now _ _ (start_single_pending T t0) Hs) as (_ & Hres & _);
    [simpl; lia|].
  change (IdleDetector.resolved (IdleDetector.start T t0)) with (@nil Z) in Hres.
  cbn [await_idle].
  change (IdleDetector.resolved (IdleDetector.start T t0)) with (@nil Z).
  cbv iota. rewrite Hs.
  destruct rest; cbn [await_idle]; rewrite Hres; reflexivity.
Qed.

(** The floor case in the session: when the page makes no request after
    the navigation and the first check fires at or after the configured
    30 s, the wait ends there and, nothing else failing, the run ends
    with status 0. *)
Theorem quiet_page_run_ends (h : host) (p : path_state) (now : Z)
    (rest : list page_event) :
  launch h = None -> newPage h = None -> createCDPSession h = None ->
  goto h = None -> close h = None ->
  p <> NotADirectory -> all_files (entries_of p) ->
  idle_events h = TimerFires 0 now :: rest ->
  idle_start h + 30000 <= now ->
  fst (script h p) = Some 0.
Proof.
  intros El En Ec Eg Ecl Hn Hall Hev Hnow.
  destruct (main_try_after_prepare h p El En Ec Hn Hall)
    as (wc & Et & Hnc & Hempty & _ & _ & _).
  destruct (main_capture_cases h wc Hnc Hempty)
    as (w1 & _ & _ & [(e' & Eg' & _) | [(_ & _ & _ & w2 & Ew) | (_ & Ec' & _)]]);
    [congruence | |].
  - exfalso. rewrite Hev in Ew.
    pose proof (wait_on_a_quiet_page (CONFIG (dirname h)) 30000 (idle_start h) now
                  rest w2 Hnow) as Hq.
    change (networkIdleTimeout (CONFIG (dirname h))) with 30000 in Ew.
    rewrite Ew in Hq. discriminate.
  - rewrite <- Et in Ec'.
    destruct (script_shape h p _ w1 Ec') as (_ & _ & Hs & _).
    unfold status_of in Hs. rewrite El, Ecl in Hs. exact Hs.
Qed.

Lemma quiet_page_run_ends_witness : fst (script all_succeeds Missing) = Some 0.
Proof.
  apply (quiet_page_run_ends all_succeeds Missing 30000 [] eq_refl eq_refl eq_refl
           eq_refl eq_refl).
  - discriminate.
  - intros k n Hk. simpl in Hk. rewrite lookup_empty in Hk. discriminate.
  - reflexivity.
  - simpl. lia.
Defined.

End SessionCoverage.
